(** * Room-based fan-out relay of the socket server

    A shallow embedding of the Socket.IO server of this repository
    (the full server with its HTTP broadcast endpoints, and the minimal
    server that only relays), with the membership and broadcast
    properties of its specification.

    Layout:
    - [Js]       JSON values, truthiness, template-literal conversion;
    - [Adapter]  the transport layer's channel-membership index;
    - [Server]   the full server: socket handlers and HTTP endpoints;
    - [Minimal]  the minimal server;
    - theorems. *)

From stdpp Require Import gmap strings list fin_maps pretty.
From Stdlib Require Import ZArith.

Open Scope string_scope.
#[local] Set Warnings "-register-all,-clear-no-such-hyp".

(* ===================================================================== *)
(** ** JSON values as the handlers see them *)
(* ===================================================================== *)

Module Js.

(** Values carried by socket events and request bodies.  Numbers are
    the integer identifiers the endpoints document ([gameId: number]),
    read within the safe-integer range ([safe_integer] below), where a
    number holds the integer exactly and a template literal prints all
    its digits; an object is its list of properties. *)
Inductive value : Type :=
| Undefined
| Null
| Bool (b : bool)
| Num (n : Z)
| Str (s : string)
| Arr (xs : list value)
| Obj (props : list (string * value)).

(** An object literal / a parsed JSON object. *)
Abbreviation object := (list (string * value)).

(** [!v] is [negb (truthy v)]: the falsy values are [undefined], [null],
    [false], [0] and the empty string; arrays and objects are truthy. *)
Definition truthy (v : value) : bool :=
  match v with
  | Undefined | Null => false
  | Bool b => b
  | Num n => negb (n =? 0)%Z
  | Str s => negb (String.eqb s "")
  | Arr _ | Obj _ => true
  end.

(** Property lookup in an object literal. *)
Fixpoint lookup_prop (k : string) (o : object) : option value :=
  match o with
  | [] => None
  | (k', v) :: o' => if String.eqb k k' then Some v else lookup_prop k o'
  end.

(** Destructuring [{ k } = o] and the access [o.k] on an object: a
    property that is absent reads as [undefined]. *)
Definition field (k : string) (o : object) : value :=
  default Undefined (lookup_prop k o).

(** [v.k] for an arbitrary truthy value: only objects carry the
    properties [id] and [text]; on numbers, strings, booleans and
    arrays the access yields [undefined]. *)
Definition prop (k : string) (v : value) : value :=
  match v with
  | Obj o => field k o
  | _ => Undefined
  end.

(** [`${v}`]: the string conversion of a template literal. *)
Fixpoint to_string (v : value) : string :=
  match v with
  | Undefined => "undefined"
  | Null => "null"
  | Bool true => "true"
  | Bool false => "false"
  | Num n => pretty n
  | Str s => s
  | Arr xs =>
      (fix join (first : bool) (l : list value) : string :=
         match l with
         | [] => ""
         | x :: l' =>
             (if first then "" else ",") ++
             match x with
             | Undefined | Null => ""
             | _ => to_string x
             end ++ join false l'
         end) true xs
  | Obj _ => "[object Object]"
  end.

End Js.

(* ===================================================================== *)
(** ** The transport layer's channel-membership index *)
(* ===================================================================== *)

Module Adapter.

(** Modelled from the spec: the channel-membership index of the transport
    layer (the socket library's [io.sockets.adapter.rooms], a map from a
    channel name to the set of connection ids joined to it).  The library
    is consumed by the servers, not part of the repository.  As the
    specification describes it: a channel is created by its first join,
    an empty channel is not retained, and a transport-level disconnect
    removes the connection from every channel it belongs to. *)
Abbreviation rooms := (gmap string (gset string)).

(** [rooms.get(room)], read as a set: the members of a channel. *)
Definition members (room : string) (rs : rooms) : gset string :=
  default ∅ (rs !! room).

(** Modelled from the spec: [socket.join(room)], a pure addition. *)
Definition join (sid room : string) (rs : rooms) : rooms :=
  <[room := {[sid]} ∪ members room rs]> rs.

(** What is left of a member set once [sid] is taken out; [None] when
    nothing is left, because empty channels are not retained. *)
Definition without (sid : string) (ms : gset string) : option (gset string) :=
  let ms' := ms ∖ {[sid]} in
  if decide (ms' = ∅) then None else Some ms'.

(** Modelled from the spec: [socket.leave(room)]; leaving a channel one is
    not in changes nothing. *)
Definition leave (sid room : string) (rs : rooms) : rooms :=
  partial_alter (λ o, o ≫= without sid) room rs.

(** Modelled from the spec: the removal of a connection from every channel
    on transport-level disconnect. *)
Definition leaveAll (sid : string) (rs : rooms) : rooms :=
  omap (without sid) rs.

End Adapter.

(* ===================================================================== *)
(** ** Outputs of a handler *)
(* ===================================================================== *)

Inductive level : Type := Info | Warn | Error.

(** What a handler does to the outside: the delivery of an event to one
    connection, or a line on the console ([console.log], [console.warn],
    [console.error] with their arguments). *)
Inductive effect : Type :=
| Emit (sid : string) (eventName : string) (data : Js.value)
| Console (l : level) (args : list Js.value).

(** An HTTP response: [res.status(n).json(body)]; [res.json] alone
    answers 200. *)
Record response : Type := Response { status : nat; body : Js.value }.

(** The events delivered to connection [sid], in order. *)
Definition received (sid : string) (out : list effect) : list (string * Js.value) :=
  omap (λ e, match e with
             | Emit sid' ev d => if decide (sid' = sid) then Some (ev, d) else None
             | Console _ _ => None
             end) out.

(** All deliveries of an output, whoever the recipient. *)
Definition deliveries (out : list effect) : list (string * string * Js.value) :=
  omap (λ e, match e with
             | Emit sid ev d => Some (sid, ev, d)
             | Console _ _ => None
             end) out.

(** Modelled from the spec: [io.to(room).emit(eventName, data)] delivers
    the event to every current member of the channel, fire and forget. *)
Definition to_emit (room eventName : string) (data : Js.value)
    (rs : Adapter.rooms) : list effect :=
  (λ sid, Emit sid eventName data) <$> elements (Adapter.members room rs).

(* ===================================================================== *)
(** ** The full server *)
(* ===================================================================== *)

Module Server.

(** The record kept for a connected client.  [rooms] is the client's own
    set of channel names; [userId] is absent until [register]. *)
Record clientInfo : Type := ClientInfo {
  id : string;
  connectedAt : Z;
  ip : string;
  rooms : gset string;
  userId : option Js.value
}.

(** The process-wide state: [connectedClients] (socket id to client
    record) and the transport's membership index [io.sockets.adapter.rooms]. *)
Record relay : Type := Relay {
  connectedClients : gmap string clientInfo;
  io_rooms : gmap string (gset string)
}.

Definition initial : relay := Relay ∅ ∅.

(** The result of running one handler. *)
Record outcome : Type := Outcome {
  next : relay;
  effects : list effect;
  reply : option response
}.

(** [clientInfo.rooms.add(room)], [clientInfo.rooms.delete(room)] and
    [clientInfo.userId = userId] on the record captured by the handlers
    of a socket, which is the record stored under the socket's id. *)
Definition rooms_add (room : string) (ci : clientInfo) : clientInfo :=
  ClientInfo (id ci) (connectedAt ci) (ip ci) ({[room]} ∪ rooms ci) (userId ci).

Definition rooms_delete (room : string) (ci : clientInfo) : clientInfo :=
  ClientInfo (id ci) (connectedAt ci) (ip ci) (rooms ci ∖ {[room]}) (userId ci).

Definition set_userId (u : Js.value) (ci : clientInfo) : clientInfo :=
  ClientInfo (id ci) (connectedAt ci) (ip ci) (rooms ci) (Some u).

Definition with_client (socket : string) (f : clientInfo → clientInfo)
    (s : relay) : relay :=
  Relay (alter f socket (connectedClients s)) (io_rooms s).

Definition with_rooms (f : Adapter.rooms → Adapter.rooms) (s : relay) : relay :=
  Relay (connectedClients s) (f (io_rooms s)).

(** [clientInfo.rooms] as the handlers of [socket] see it: the room set
    of the record stored under the socket's id. *)
Definition rooms_of (socket : string) (s : relay) : gset string :=
  from_option rooms ∅ (connectedClients s !! socket).

(** [clientInfo.rooms.has(room)] in a handler of [socket]. *)
Definition rooms_has (socket room : string) (s : relay) : bool :=
  bool_decide (room ∈ rooms_of socket s).

(** Helper: room name for a game. *)
Definition getGameRoomName (gameId : Js.value) : string :=
  "game_" ++ Js.to_string gameId.

(** Helper: number of clients in a room. *)
Definition getRoomSize (roomName : string) (s : relay) : nat :=
  match io_rooms s !! roomName with
  | Some room => size room
  | None => 0
  end.

Definition num (n : nat) : Js.value := Js.Num (Z.of_nat n).

(** Emit an event to a game room; yields the client count read before
    the emit. *)
Definition emitToGame (gameId : Js.value) (eventName : string)
    (data : Js.value) (s : relay) : nat * list effect :=
  let roomName := getGameRoomName gameId in
  let clientCount := getRoomSize roomName s in
  (clientCount,
   (to_emit roomName eventName data (io_rooms s) ++
    [Console Info [Js.Str ("[Emit] " ++ eventName ++ " to " ++ roomName ++
                           " - " ++ pretty clientCount ++ " clients")]])%list).

(** *** Socket handlers *)

(** [io.on('connection', socket => ...)]: the record is created with an
    empty room set and stored under the socket id. *)
Definition on_connection (socket address : string) (now : Z) (s : relay) : outcome :=
  let clientInfo := ClientInfo socket now address ∅ None in
  Outcome (Relay (<[socket := clientInfo]> (connectedClients s)) (io_rooms s))
          [Console Info [Js.Str ("[Socket.IO] Client connected: " ++ socket ++
                                 " from " ++ address)]]
          None.

Definition on_joinRoom (socket room : string) (s : relay) : outcome :=
  let s1 := with_rooms (Adapter.join socket room) s in
  let s2 := with_client socket (rooms_add room) s1 in
  let roomSize := getRoomSize room s2 in
  Outcome s2
    [Console Info [Js.Str ("[Socket.IO] " ++ socket ++ " joined room: " ++ room ++
                           " (" ++ pretty roomSize ++ " clients)")];
     Emit socket "message"
       (Js.Obj [("room", Js.Str room);
                ("message", Js.Obj [("type", Js.Str "subscribed");
                                    ("status", Js.Str "success");
                                    ("room", Js.Str room)])])]
    None.

Definition on_leaveRoom (socket room : string) (s : relay) : outcome :=
  let s1 := with_rooms (Adapter.leave socket room) s in
  let s2 := with_client socket (rooms_delete room) s1 in
  let roomSize := getRoomSize room s2 in
  Outcome s2
    [Console Info [Js.Str ("[Socket.IO] " ++ socket ++ " left room: " ++ room ++
                           " (" ++ pretty roomSize ++ " clients remaining)")]]
    None.

Definition userRoomName (userId : Js.value) : string :=
  "user_" ++ Js.to_string userId.

Definition on_register (socket : string) (userId : Js.value) (s : relay) : outcome :=
  let userRoom := userRoomName userId in
  let s1 := with_rooms (Adapter.join socket userRoom) s in
  let s2 := with_client socket (set_userId userId) s1 in
  let s3 := with_client socket (rooms_add userRoom) s2 in
  Outcome s3
    [Console Info [Js.Str ("[Socket.IO] User " ++ Js.to_string userId ++
                           " registered with socket " ++ socket)]]
    None.

(** The parameter pattern [({ gameId })] binds the field of the payload,
    [undefined] when the payload has none. *)
Definition on_broadcast_players_updated (socket : string) (gameId : Js.value)
    (s : relay) : outcome :=
  if negb (Js.truthy gameId) then
    Outcome s [Console Warn [Js.Str "[Socket.IO] broadcast_players_updated: missing gameId"]] None
  else
    let roomName := getGameRoomName gameId in
    let recipientCount := getRoomSize roomName s in
    Outcome s
      (to_emit roomName "game_players_updated" (Js.Obj [("gameId", gameId)]) (io_rooms s) ++
       [Console Info [Js.Str ("[Socket.IO] broadcast_players_updated → " ++ roomName ++
                              " (" ++ pretty recipientCount ++ " clients)")]])%list
      None.

Definition on_broadcast_comment_new (socket : string) (gameId comment : Js.value)
    (s : relay) : outcome :=
  if negb (Js.truthy gameId) || negb (Js.truthy comment) then
    Outcome s [Console Warn [Js.Str "[Socket.IO] broadcast_comment_new: missing gameId or comment"]] None
  else
    let roomName := getGameRoomName gameId in
    (* Only broadcast if sender is in the room *)
    if negb (rooms_has socket roomName s) then
      Outcome s
        [Console Warn [Js.Str ("[Socket.IO] Socket " ++ socket ++ " not in room " ++
                               roomName ++ ", ignoring broadcast")]]
        None
    else
      let recipientCount := getRoomSize roomName s in
      Outcome s
        (to_emit roomName "game_comment_new" comment (io_rooms s) ++
         [Console Info [Js.Str ("[Socket.IO] broadcast_comment_new → " ++ roomName ++
                                " (" ++ pretty recipientCount ++ " clients)")]])%list
        None.

(** [message({room, message})]: [room] is a channel name. *)
Definition on_message (socket room : string) (message : Js.value) (s : relay) : outcome :=
  Outcome s
    (Console Info [Js.Str ("[Socket.IO] Message from " ++ socket ++ " to room " ++ room)] ::
     to_emit room "message"
       (Js.Obj [("room", Js.Str room); ("message", message); ("from", Js.Str socket)])
       (io_rooms s))
    None.

Definition on_privateMessage (socket to : string) (message : Js.value) (s : relay) : outcome :=
  Outcome s
    (Console Info [Js.Str ("[Socket.IO] Private message from " ++ socket ++ " to " ++ to)] ::
     to_emit to "privateMessage"
       (Js.Obj [("message", message); ("from", Js.Str socket)])
       (io_rooms s))
    None.

(** The [disconnect] handler itself: two or three console lines and
    [connectedClients.delete(socket.id)]. *)
Definition on_disconnect (socket : string) (reason details : Js.value) (s : relay) : outcome :=
  Outcome (Relay (delete socket (connectedClients s)) (io_rooms s))
    ([Console Info [Js.Str ("[Socket.IO] Client disconnected: " ++ socket)];
      Console Info [Js.Str ("[Socket.IO] Reason: " ++ Js.to_string reason)]] ++
     (if Js.truthy details
      then [Console Info [Js.Str "[Socket.IO] Details:"; details]]
      else []))%list
    None.

(** A transport-level disconnect: the transport takes the connection out
    of every channel, then the [disconnect] handler runs. *)
Definition disconnect (socket : string) (reason details : Js.value) (s : relay) : outcome :=
  on_disconnect socket reason details (with_rooms (Adapter.leaveAll socket) s).

Definition on_error (socket : string) (error : Js.value) (s : relay) : outcome :=
  Outcome s
    [Console Error [Js.Str ("[Socket.IO] Error from " ++ socket ++ ":"); error]]
    None.

(** *** HTTP API *)

Definition json (body : Js.value) : option response := Some (Response 200 body).

Definition status_json (code : nat) (body : Js.value) : option response :=
  Some (Response code body).

Definition missing_fields (required : list string) : Js.value :=
  Js.Obj [("error", Js.Str "Missing required fields");
          ("required", Js.Arr (Js.Str <$> required))].

(** GET /api/room/:roomName *)
Definition get_room (roomName : string) (s : relay) : outcome :=
  let size := getRoomSize roomName s in
  Outcome s []
    (json (Js.Obj [("room", Js.Str roomName);
                   ("clients", num size);
                   ("exists", Js.Bool (bool_decide (0 < size)))])).

(** POST /api/broadcast/game-comment/new; [now] is the clock reading
    [new Date().toISOString()]. *)
Definition post_comment_new (body : Js.object) (now : string) (s : relay) : outcome :=
  let gameId := Js.field "gameId" body in
  let comment := Js.field "comment" body in
  if negb (Js.truthy gameId) || negb (Js.truthy comment) then
    Outcome s [] (status_json 400 (missing_fields ["gameId"; "comment"]))
  else if negb (Js.truthy (Js.prop "id" comment)) || negb (Js.truthy (Js.prop "text" comment)) then
    Outcome s []
      (status_json 400 (Js.Obj [("error", Js.Str "Comment must have id and text fields")]))
  else
    let roomName := getGameRoomName gameId in
    let '(recipientCount, out) := emitToGame gameId "game_comment_new" comment s in
    Outcome s out
      (json (Js.Obj [("success", Js.Bool true);
                     ("gameId", gameId);
                     ("room", Js.Str roomName);
                     ("recipients", num recipientCount);
                     ("event", Js.Str "game_comment_new");
                     ("timestamp", Js.Str now)])).

(** POST /api/broadcast/game-comment/edit *)
Definition post_comment_edit (body : Js.object) (now : string) (s : relay) : outcome :=
  let gameId := Js.field "gameId" body in
  let comment := Js.field "comment" body in
  if negb (Js.truthy gameId) || negb (Js.truthy comment) then
    Outcome s [] (status_json 400 (missing_fields ["gameId"; "comment"]))
  else if negb (Js.truthy (Js.prop "id" comment)) then
    Outcome s []
      (status_json 400 (Js.Obj [("error", Js.Str "Comment must have id field")]))
  else
    let roomName := getGameRoomName gameId in
    let '(recipientCount, out) := emitToGame gameId "game_comment_edit" comment s in
    Outcome s out
      (json (Js.Obj [("success", Js.Bool true);
                     ("gameId", gameId);
                     ("room", Js.Str roomName);
                     ("recipients", num recipientCount);
                     ("event", Js.Str "game_comment_edit");
                     ("timestamp", Js.Str now)])).

(** POST /api/broadcast/game-comment/delete *)
Definition post_comment_delete (body : Js.object) (now : string) (s : relay) : outcome :=
  let gameId := Js.field "gameId" body in
  let commentId := Js.field "commentId" body in
  if negb (Js.truthy gameId) || negb (Js.truthy commentId) then
    Outcome s [] (status_json 400 (missing_fields ["gameId"; "commentId"]))
  else
    let roomName := getGameRoomName gameId in
    let '(recipientCount, out) :=
      emitToGame gameId "game_comment_delete"
        (Js.Obj [("id", commentId); ("gameId", gameId)]) s in
    Outcome s out
      (json (Js.Obj [("success", Js.Bool true);
                     ("gameId", gameId);
                     ("commentId", commentId);
                     ("room", Js.Str roomName);
                     ("recipients", num recipientCount);
                     ("event", Js.Str "game_comment_delete");
                     ("timestamp", Js.Str now)])).

(** POST /api/test/send-message *)
Definition post_test_send_message (body : Js.object) (s : relay) : outcome :=
  let gameId := Js.field "gameId" body in
  let message := Js.field "message" body in
  if negb (Js.truthy gameId) then
    Outcome s [] (status_json 400 (Js.Obj [("error", Js.Str "gameId is required")]))
  else
    let roomName := getGameRoomName gameId in
    let testMessage := if Js.truthy message then message else Js.Str "Test message from server" in
    Outcome s
      (to_emit roomName "message"
         (Js.Obj [("room", Js.Str roomName); ("message", testMessage); ("type", Js.Str "test")])
         (io_rooms s))
      (json (Js.Obj [("success", Js.Bool true);
                     ("room", Js.Str roomName);
                     ("recipients", num (getRoomSize roomName s));
                     ("message", testMessage)])).

(** *** The event loop *)

(** What arrives at the server: a transport-level connect, an event of
    a connected socket, a transport-level disconnect, or an HTTP request. *)
Inductive event : Type :=
| Connection (socket address : string) (now : Z)
| JoinRoom (socket room : string)
| LeaveRoom (socket room : string)
| Register (socket : string) (userId : Js.value)
| BroadcastPlayersUpdated (socket : string) (gameId : Js.value)
| BroadcastCommentNew (socket : string) (gameId comment : Js.value)
| Message (socket room : string) (message : Js.value)
| PrivateMessage (socket to : string) (message : Js.value)
| Disconnect (socket : string) (reason details : Js.value)
| SocketError (socket : string) (error : Js.value)
| GetRoom (roomName : string)
| PostCommentNew (body : Js.object) (now : string)
| PostCommentEdit (body : Js.object) (now : string)
| PostCommentDelete (body : Js.object) (now : string)
| PostTestSendMessage (body : Js.object).

(** Every event is handled to completion before the next one. *)
Definition handle (e : event) (s : relay) : outcome :=
  match e with
  | Connection socket address now => on_connection socket address now s
  | JoinRoom socket room => on_joinRoom socket room s
  | LeaveRoom socket room => on_leaveRoom socket room s
  | Register socket userId => on_register socket userId s
  | BroadcastPlayersUpdated socket gameId => on_broadcast_players_updated socket gameId s
  | BroadcastCommentNew socket gameId comment => on_broadcast_comment_new socket gameId comment s
  | Message socket room message => on_message socket room message s
  | PrivateMessage socket to message => on_privateMessage socket to message s
  | Disconnect socket reason details => disconnect socket reason details s
  | SocketError socket error => on_error socket error s
  | GetRoom roomName => get_room roomName s
  | PostCommentNew body now => post_comment_new body now s
  | PostCommentEdit body now => post_comment_edit body now s
  | PostCommentDelete body now => post_comment_delete body now s
  | PostTestSendMessage body => post_test_send_message body s
  end.

Definition live (socket : string) (s : relay) : bool :=
  bool_decide (is_Some (connectedClients s !! socket)).

(** The transport assigns a connecting socket an id no connected socket
    has, and delivers the events of a socket, its disconnect included,
    only while it is connected.  HTTP requests arrive at any time. *)
Definition enabled (e : event) (s : relay) : bool :=
  match e with
  | Connection socket _ _ => negb (live socket s)
  | JoinRoom socket _ | LeaveRoom socket _ | Register socket _
  | BroadcastPlayersUpdated socket _ | BroadcastCommentNew socket _ _
  | Message socket _ _ | PrivateMessage socket _ _
  | Disconnect socket _ _ | SocketError socket _ => live socket s
  | GetRoom _ | PostCommentNew _ _ | PostCommentEdit _ _
  | PostCommentDelete _ _ | PostTestSendMessage _ => true
  end.

(** Running a sequence of events in arrival order; [None] when the
    sequence is one the transport cannot produce. *)
Fixpoint run (tr : list event) (s : relay) : option relay :=
  match tr with
  | [] => Some s
  | e :: tr' => if enabled e s then run tr' (next (handle e s)) else None
  end.

(** The states the server can be in. *)
Definition reachable (s : relay) : Prop :=
  ∃ tr, run tr initial = Some s.

End Server.

(* ===================================================================== *)
(** ** The membership history, in the words of the specification *)
(* ===================================================================== *)

Module History.

(** Whether, after [e], connection [c] counts as having joined channel
    [r] last, given whether it did before: a join of [r] by [c] (the
    [joinRoom] event, or [register], which joins the user's channel)
    sets it; a leave of [r] by [c] or a disconnect of [c] clears it. *)
Definition joined_step (c r : string) (before : bool) (e : Server.event) : bool :=
  match e with
  | Server.JoinRoom socket room =>
      if decide (socket = c ∧ room = r) then true else before
  | Server.Register socket userId =>
      if decide (socket = c ∧ Server.userRoomName userId = r) then true else before
  | Server.LeaveRoom socket room =>
      if decide (socket = c ∧ room = r) then false else before
  | Server.Disconnect socket _ _ =>
      if decide (socket = c) then false else before
  | _ => before
  end.

(** [c] last executed a join of [r] without a leave of [r] or a
    disconnect since. *)
Definition last_joined (tr : list Server.event) (c r : string) : bool :=
  foldl (joined_step c r) false tr.

End History.

(* ===================================================================== *)
(** ** The minimal server *)
(* ===================================================================== *)

Module Minimal.

(** The minimal server keeps no state of its own: all there is, is the
    transport's membership index. *)
Abbreviation relay := (gmap string (gset string)).

Definition on_connection (socket : string) (s : relay) : relay * list effect :=
  (s, [Console Info [Js.Str ("New client connected " ++ socket)]]).

Definition on_joinRoom (socket room : string) (s : relay) : relay * list effect :=
  (Adapter.join socket room s,
   [Console Info [Js.Str ("User " ++ socket ++ " joined room: " ++ room)]]).

Definition on_leaveRoom (socket room : string) (s : relay) : relay * list effect :=
  (Adapter.leave socket room s,
   [Console Info [Js.Str ("User " ++ socket ++ " left room: " ++ room)]]).

Definition on_privateMessage (socket to : string) (message : Js.value)
    (s : relay) : relay * list effect :=
  (s,
   Console Info [Js.Str ("Private message from " ++ socket ++ " to " ++ to ++
                         ": " ++ Js.to_string message)] ::
   to_emit to "privateMessage" message s).

Definition on_message (socket room : string) (message : Js.value)
    (s : relay) : relay * list effect :=
  (s,
   Console Info [Js.Str ("Message from " ++ socket ++ " in room " ++ room ++
                         ": " ++ Js.to_string message)] ::
   to_emit room "message" message s).

(** The string-named channels among the rooms that [socket.join(v)]
    joins: [v] itself when it is a string, its string elements when it
    is an array of rooms.  A room keyed by another value (the number of
    [register(7)]) is not one of the string-named channels that make up
    the index here, the only ones [message] and [privateMessage] with a
    channel name address. *)
Definition string_rooms (v : Js.value) : list string :=
  match v with
  | Js.Str room => [room]
  | Js.Arr xs =>
      omap (λ x, match x with Js.Str room => Some room | _ => None end) xs
  | _ => []
  end.

(** [register] passes the user id as it came to [socket.join]: no prefix,
    no conversion to a string. *)
Definition on_register (socket : string) (userId : Js.value)
    (s : relay) : relay * list effect :=
  (foldr (Adapter.join socket) s (string_rooms userId),
   [Console Info [Js.Str ("User " ++ Js.to_string userId ++ " connected " ++ socket)]]).

Definition on_disconnect (socket : string) (reason details : Js.value)
    (s : relay) : relay * list effect :=
  (s,
   (Console Info [reason] ::
    (if Js.truthy details then [Console Info [details]] else []))%list).

(** A transport-level disconnect: the transport takes the connection out
    of every channel, then the [disconnect] handler runs. *)
Definition disconnect (socket : string) (reason details : Js.value)
    (s : relay) : relay * list effect :=
  on_disconnect socket reason details (Adapter.leaveAll socket s).

End Minimal.

(* ===================================================================== *)
(** ** The socket emitter helper *)
(* ===================================================================== *)

Module Emitter.

(** The module variable [io]: [null] until [init], then a reference to
    the server's Socket.IO instance.  The room index of that instance is
    shared with the server and read at call time; the functions below
    take its current content as [rs]. *)
Inductive handle : Type := Null | Instance.

Definition not_initialized : list effect :=
  [Console Warn [Js.Str "[SocketEmitter] Not initialized. Call init(io) first."]].

(** Initialize with the Socket.IO instance. *)
Definition init (socketIO : handle) : handle * list effect :=
  (socketIO, [Console Info [Js.Str "[SocketEmitter] Initialized"]]).

(** Get room name for game. *)
Definition getGameRoomName (gameId : Js.value) : string :=
  "game_" ++ Js.to_string gameId.

(** Get number of clients in room. *)
Definition getRoomSize (io : handle) (rs : Adapter.rooms) (roomName : string) : nat :=
  match io with
  | Null => 0
  | Instance =>
      match rs !! roomName with
      | Some room => size room
      | None => 0
      end
  end.

(** Emit new comment event to game room. *)
Definition emitNewComment (io : handle) (rs : Adapter.rooms)
    (gameId comment : Js.value) : nat * list effect :=
  match io with
  | Null => (0, not_initialized)
  | Instance =>
      let roomName := getGameRoomName gameId in
      let recipients := getRoomSize io rs roomName in
      (recipients,
       (to_emit roomName "game_comment_new" comment rs ++
        [Console Info [Js.Str ("[SocketEmitter] game_comment_new → " ++ roomName ++
                               " (" ++ pretty recipients ++ " clients)")]])%list)
  end.

(** Emit edit comment event to game room. *)
Definition emitEditComment (io : handle) (rs : Adapter.rooms)
    (gameId comment : Js.value) : nat * list effect :=
  match io with
  | Null => (0, not_initialized)
  | Instance =>
      let roomName := getGameRoomName gameId in
      let recipients := getRoomSize io rs roomName in
      (recipients,
       (to_emit roomName "game_comment_edit" comment rs ++
        [Console Info [Js.Str ("[SocketEmitter] game_comment_edit → " ++ roomName ++
                               " (" ++ pretty recipients ++ " clients)")]])%list)
  end.

(** Emit delete comment event to game room. *)
Definition emitDeleteComment (io : handle) (rs : Adapter.rooms)
    (gameId commentId : Js.value) : nat * list effect :=
  match io with
  | Null => (0, not_initialized)
  | Instance =>
      let roomName := getGameRoomName gameId in
      let recipients := getRoomSize io rs roomName in
      (recipients,
       (to_emit roomName "game_comment_delete"
          (Js.Obj [("id", commentId); ("gameId", gameId)]) rs ++
        [Console Info [Js.Str ("[SocketEmitter] game_comment_delete → " ++ roomName ++
                               " (" ++ pretty recipients ++ " clients)")]])%list)
  end.

(** Emit custom event to game room. *)
Definition emitToGame (io : handle) (rs : Adapter.rooms)
    (gameId : Js.value) (eventName : string) (data : Js.value) : nat * list effect :=
  match io with
  | Null => (0, not_initialized)
  | Instance =>
      let roomName := getGameRoomName gameId in
      let recipients := getRoomSize io rs roomName in
      (recipients,
       (to_emit roomName eventName data rs ++
        [Console Info [Js.Str ("[SocketEmitter] " ++ eventName ++ " → " ++ roomName ++
                               " (" ++ pretty recipients ++ " clients)")]])%list)
  end.

(** Emit to specific user by userId. *)
Definition emitToUser (io : handle) (rs : Adapter.rooms)
    (userId : Js.value) (eventName : string) (data : Js.value) : nat * list effect :=
  match io with
  | Null => (0, not_initialized)
  | Instance =>
      let userRoom := "user_" ++ Js.to_string userId in
      let recipients := getRoomSize io rs userRoom in
      (recipients,
       (to_emit userRoom eventName data rs ++
        [Console Info [Js.Str ("[SocketEmitter] " ++ eventName ++ " → user_" ++
                               Js.to_string userId ++
                               " (" ++ pretty recipients ++ " clients)")]])%list)
  end.

(** Check if Socket.IO is initialized: [io !== null]. *)
Definition isInitialized (io : handle) : bool :=
  match io with
  | Null => false
  | Instance => true
  end.

(** Get Socket.IO instance. *)
Definition getIO (io : handle) : handle := io.

End Emitter.

(* ===================================================================== *)
(** ** The integration examples *)
(* ===================================================================== *)

Module Integration.

(** The [res.json] installed by [socketBroadcastMiddleware]: it sends
    the response through the original [json], then, when
    [res.locals.socketBroadcast] is set, broadcasts according to its
    [eventType].  The result is the data handed to the original [json]
    and what the emitter does. *)
Definition json (io : Emitter.handle) (rs : Adapter.rooms)
    (socketBroadcast data : Js.value) : Js.value * list effect :=
  (data,
   if Js.truthy socketBroadcast then
     let eventType := Js.prop "eventType" socketBroadcast in
     let gameId := Js.prop "gameId" socketBroadcast in
     let broadcastData := Js.prop "data" socketBroadcast in
     match eventType with
     | Js.Str t =>
         if String.eqb t "new" then snd (Emitter.emitNewComment io rs gameId broadcastData)
         else if String.eqb t "edit" then snd (Emitter.emitEditComment io rs gameId broadcastData)
         else if String.eqb t "delete" then snd (Emitter.emitDeleteComment io rs gameId broadcastData)
         else []
     | _ => []
     end
   else []).

End Integration.

(* ===================================================================== *)
(** ** Invariants and the vocabulary of the statements *)
(* ===================================================================== *)

(** No channel of the index is empty. *)
Definition no_empty_room (rs : gmap string (gset string)) : Prop :=
  ∀ r ms, rs !! r = Some ms → ms ≠ ∅.

(** The two views of membership agree: a connection is a member of a
    channel in the transport's index exactly when it is connected and
    the channel is in its own room set. *)
Definition views_agree (s : Server.relay) : Prop :=
  ∀ c r, c ∈ Adapter.members r (Server.io_rooms s) ↔ r ∈ Server.rooms_of c s.

(** Well-formed states of the full server. *)
Definition wf (s : Server.relay) : Prop :=
  no_empty_room (Server.io_rooms s) ∧ views_agree s.

(** A request turned down at the HTTP boundary: status 400, nothing
    emitted or logged, the state as it was. *)
Definition rejected (o : Server.outcome) (s : Server.relay) : Prop :=
  (∃ b, Server.reply o = Some (Response 400 b)) ∧
  Server.effects o = [] ∧ Server.next o = s.

(** The body of a response carries the list of required fields. *)
Definition lists_required (o : Server.outcome) (fields : list string) : Prop :=
  ∃ b, Server.reply o = Some (Response 400 b) ∧
       Js.prop "required" b = Js.Arr (Js.Str <$> fields).

(** The event assigns the id [c] to a new connection. *)
Definition connects (c : string) (e : Server.event) : bool :=
  match e with
  | Server.Connection socket _ _ => bool_decide (socket = c)
  | _ => false
  end.

(** The integers a number holds exactly: up to [2^53 - 1] in absolute
    value. *)
Definition safe_integer (n : Z) : Prop :=
  (- (2 ^ 53 - 1) ≤ n ≤ 2 ^ 53 - 1)%Z.

(** The events whose handlers write to the state: a connect, the three
    membership events, a disconnect. *)
Definition mutates (e : Server.event) : bool :=
  match e with
  | Server.Connection _ _ _ | Server.JoinRoom _ _ | Server.LeaveRoom _ _
  | Server.Register _ _ | Server.Disconnect _ _ _ => true
  | _ => false
  end.

(** Every record of the registry is stored under its own id. *)
Definition ids_agree (s : Server.relay) : Prop :=
  ∀ c ci, Server.connectedClients s !! c = Some ci → Server.id ci = c.

(* ===================================================================== *)
(** ** Scenarios *)
(* ===================================================================== *)

(** The state a sequence of events leads to from the initial state. *)
Definition state_after (tr : list Server.event) : Server.relay :=
  default Server.initial (Server.run tr Server.initial).

(** Two connections, both joined to [game_123]. *)
Definition two_in_game_123 : list Server.event :=
  [Server.Connection "a" "10.0.0.1" 0; Server.Connection "b" "10.0.0.2" 1;
   Server.JoinRoom "a" "game_123"; Server.JoinRoom "b" "game_123"].

(** Two connections joined to [game_0]. *)
Definition two_in_game_0 : list Server.event :=
  [Server.Connection "a" "10.0.0.1" 0; Server.Connection "b" "10.0.0.2" 1;
   Server.JoinRoom "a" "game_0"; Server.JoinRoom "b" "game_0"].

(** A connection that joins, registers, leaves and goes, next to one
    that stays. *)
Definition comings_and_goings : list Server.event :=
  [Server.Connection "a" "10.0.0.1" 0; Server.JoinRoom "a" "game_1";
   Server.Connection "b" "10.0.0.2" 1; Server.Register "b" (Js.Num 7);
   Server.JoinRoom "b" "game_1"; Server.LeaveRoom "a" "game_1";
   Server.JoinRoom "a" "game_2";
   Server.Disconnect "a" (Js.Str "transport close") Js.Undefined].

(** One connection in two channels. *)
Definition one_in_two_rooms : list Server.event :=
  [Server.Connection "a" "10.0.0.1" 0; Server.Connection "b" "10.0.0.2" 1;
   Server.JoinRoom "a" "game_1"; Server.JoinRoom "a" "game_2";
   Server.JoinRoom "b" "game_1"].

(** Two connections registered for the same user. *)
Definition two_devices_one_user : list Server.event :=
  [Server.Connection "a" "10.0.0.1" 0; Server.Connection "b" "10.0.0.2" 1;
   Server.Register "a" (Js.Num 7); Server.Register "b" (Js.Num 7)].

(** One connection alone in a channel, a second one connected. *)
Definition alone_in_game_5 : list Server.event :=
  [Server.Connection "a" "10.0.0.1" 0; Server.Connection "b" "10.0.0.2" 1;
   Server.JoinRoom "a" "game_5"].

(* ===================================================================== *)
(** ** Facts about values *)
(* ===================================================================== *)

Example to_string_num : Js.to_string (Js.Num 123) = "123".
Proof. reflexivity. Qed.

Example to_string_neg : Js.to_string (Js.Num (-7)) = "-7".
Proof. reflexivity. Qed.

Example to_string_arr :
  Js.to_string (Js.Arr [Js.Num 1; Js.Null; Js.Str "a"]) = "1,,a".
Proof. reflexivity. Qed.

Example game_room_123 : Server.getGameRoomName (Js.Num 123) = "game_123".
Proof. reflexivity. Qed.

Lemma field_absent k o : Js.lookup_prop k o = None → Js.field k o = Js.Undefined.
Proof. unfold Js.field. by intros ->. Qed.

Lemma falsy_zero : Js.truthy (Js.Num 0) = false.
Proof. reflexivity. Qed.

Lemma falsy_empty_string : Js.truthy (Js.Str "") = false.
Proof. reflexivity. Qed.

Lemma truthy_has_prop k v : Js.truthy (Js.prop k v) = true → ∃ o, v = Js.Obj o.
Proof. destruct v; simpl; try discriminate. eauto. Qed.

(* ===================================================================== *)
(** ** Facts about the membership index *)
(* ===================================================================== *)

Section adapter_facts.
Implicit Types (rs : gmap string (gset string)) (sid room r : string).

Lemma members_join sid room r rs :
  Adapter.members r (Adapter.join sid room rs) =
  if decide (room = r) then {[sid]} ∪ Adapter.members r rs else Adapter.members r rs.
Proof.
  unfold Adapter.join, Adapter.members at 1.
  case_decide as Hr.
  - subst. by rewrite lookup_insert_eq.
  - by rewrite lookup_insert_ne.
Qed.

Lemma without_members sid (o : option (gset string)) :
  default ∅ (o ≫= Adapter.without sid) = default ∅ o ∖ {[sid]}.
Proof.
  destruct o as [ms|]; simpl; [|set_solver].
  unfold Adapter.without. case_decide as He; simpl; [by rewrite He | done].
Qed.

Lemma members_leave sid room r rs :
  Adapter.members r (Adapter.leave sid room rs) =
  if decide (room = r) then Adapter.members r rs ∖ {[sid]} else Adapter.members r rs.
Proof.
  unfold Adapter.leave, Adapter.members.
  case_decide as Hr.
  - subst. rewrite lookup_partial_alter_eq. apply without_members.
  - by rewrite lookup_partial_alter_ne.
Qed.

Lemma members_leaveAll sid r rs :
  Adapter.members r (Adapter.leaveAll sid rs) = Adapter.members r rs ∖ {[sid]}.
Proof.
  unfold Adapter.leaveAll, Adapter.members.
  rewrite lookup_omap. apply without_members.
Qed.

Lemma without_nonempty sid ms ms' : Adapter.without sid ms = Some ms' → ms' ≠ ∅.
Proof. unfold Adapter.without. case_decide; naive_solver. Qed.

Lemma no_empty_room_empty : no_empty_room ∅.
Proof. intros r ms. by rewrite lookup_empty. Qed.

Lemma no_empty_room_join sid room rs :
  no_empty_room rs → no_empty_room (Adapter.join sid room rs).
Proof.
  intros Hne r ms. unfold Adapter.join.
  destruct (decide (room = r)) as [->|Hr].
  - rewrite lookup_insert_eq. intros [= <-]. set_solver.
  - rewrite lookup_insert_ne by done. apply Hne.
Qed.

Lemma no_empty_room_leave sid room rs :
  no_empty_room rs → no_empty_room (Adapter.leave sid room rs).
Proof.
  intros Hne r ms. unfold Adapter.leave.
  destruct (decide (room = r)) as [->|Hr].
  - rewrite lookup_partial_alter_eq.
    destruct (rs !! r) as [ms0|]; simpl; [|done]. apply without_nonempty.
  - rewrite lookup_partial_alter_ne by done. apply Hne.
Qed.

Lemma no_empty_room_leaveAll sid rs : no_empty_room (Adapter.leaveAll sid rs).
Proof.
  intros r ms. unfold Adapter.leaveAll. rewrite lookup_omap.
  destruct (rs !! r) as [ms0|]; simpl; [|done]. apply without_nonempty.
Qed.

(** With no empty channel around, the index is determined by its member
    sets. *)
Lemma rooms_eq rs1 rs2 :
  no_empty_room rs1 → no_empty_room rs2 →
  (∀ r, Adapter.members r rs1 = Adapter.members r rs2) → rs1 = rs2.
Proof.
  intros H1 H2 Hm. apply map_eq. intros r.
  specialize (Hm r). unfold Adapter.members in Hm.
  destruct (rs1 !! r) as [m1|] eqn:E1, (rs2 !! r) as [m2|] eqn:E2; simpl in Hm.
  - by subst.
  - by destruct (H1 _ _ E1).
  - by destruct (H2 _ _ E2).
  - done.
Qed.

Lemma leave_not_member sid room rs :
  no_empty_room rs → sid ∉ Adapter.members room rs → Adapter.leave sid room rs = rs.
Proof.
  intros Hne Hnot. apply rooms_eq; [by apply no_empty_room_leave | done |].
  intros r. rewrite members_leave. case_decide; [subst; set_solver | done].
Qed.

Lemma leave_join sid room rs :
  no_empty_room rs → sid ∉ Adapter.members room rs →
  Adapter.leave sid room (Adapter.join sid room rs) = rs.
Proof.
  intros Hne Hnot. apply rooms_eq; [|done|].
  - by apply no_empty_room_leave, no_empty_room_join.
  - intros r. rewrite members_leave, members_join.
    case_decide; [subst; set_solver | done].
Qed.

Lemma join_member sid room rs :
  sid ∈ Adapter.members room rs → Adapter.join sid room rs = rs.
Proof.
  intros Hin. unfold Adapter.join, Adapter.members in *.
  destruct (rs !! room) as [ms|] eqn:E; simpl in *; [|set_solver].
  apply insert_id. rewrite E. f_equal. set_solver.
Qed.

Lemma join_join sid room rs :
  Adapter.join sid room (Adapter.join sid room rs) = Adapter.join sid room rs.
Proof. apply join_member. rewrite members_join, decide_True by done. set_solver. Qed.

Lemma leaveAll_not_member sid rs :
  no_empty_room rs → (∀ r, sid ∉ Adapter.members r rs) → Adapter.leaveAll sid rs = rs.
Proof.
  intros Hne Hnot. apply rooms_eq; [apply no_empty_room_leaveAll | done |].
  intros r. rewrite members_leaveAll. specialize (Hnot r). set_solver.
Qed.

End adapter_facts.

(* ===================================================================== *)
(** ** Facts about the full server's state *)
(* ===================================================================== *)

Section server_facts.
Import Server.
Implicit Types (s : relay) (c socket room r : string).

Lemma getRoomSize_members r s :
  getRoomSize r s = size (Adapter.members r (io_rooms s)).
Proof.
  unfold getRoomSize, Adapter.members.
  by destruct (io_rooms s !! r).
Qed.

Lemma live_spec socket s : live socket s = true ↔ is_Some (connectedClients s !! socket).
Proof. unfold live. by rewrite bool_decide_eq_true. Qed.

Lemma rooms_of_live c r s : r ∈ rooms_of c s → live c s = true.
Proof.
  unfold rooms_of. rewrite live_spec.
  destruct (connectedClients s !! c); simpl; [eauto | set_solver].
Qed.

Lemma rooms_of_add c socket room s :
  live socket s = true →
  rooms_of c (with_client socket (rooms_add room) s) =
  if decide (socket = c) then {[room]} ∪ rooms_of c s else rooms_of c s.
Proof.
  rewrite live_spec. intros [ci Hci]. unfold rooms_of, with_client. simpl.
  case_decide as Hc.
  - subst. rewrite lookup_alter_eq, Hci. done.
  - by rewrite lookup_alter_ne.
Qed.

Lemma rooms_of_delete c socket room s :
  rooms_of c (with_client socket (rooms_delete room) s) =
  if decide (socket = c) then rooms_of c s ∖ {[room]} else rooms_of c s.
Proof.
  unfold rooms_of, with_client. simpl.
  case_decide as Hc.
  - subst. rewrite lookup_alter_eq.
    destruct (connectedClients s !! c); simpl; [done | set_solver].
  - by rewrite lookup_alter_ne.
Qed.

Lemma rooms_of_set_userId c socket u s :
  rooms_of c (with_client socket (set_userId u) s) = rooms_of c s.
Proof.
  unfold rooms_of, with_client. simpl.
  destruct (decide (socket = c)) as [->|Hc].
  - rewrite lookup_alter_eq. by destruct (connectedClients s !! c).
  - by rewrite lookup_alter_ne.
Qed.

Lemma live_with_client c socket f s :
  live c (with_client socket f s) = live c s.
Proof.
  unfold live, with_client. simpl. apply bool_decide_ext.
  destruct (decide (socket = c)) as [->|Hc].
  - rewrite lookup_alter_eq. by rewrite fmap_is_Some.
  - by rewrite lookup_alter_ne.
Qed.

Lemma wf_initial : wf initial.
Proof.
  split; [apply no_empty_room_empty|].
  intros c r. unfold Adapter.members, rooms_of. simpl.
  rewrite !lookup_empty. simpl. set_solver.
Qed.

Lemma wf_connection socket address now s :
  live socket s = false → wf s → wf (next (on_connection socket address now s)).
Proof.
  intros Hfresh [Hne Hag]. unfold views_agree in *. split; [done|].
  intros c r. simpl. rewrite Hag. unfold rooms_of. simpl.
  destruct (decide (socket = c)) as [->|Hc].
  - rewrite lookup_insert_eq. simpl.
    split; [|set_solver]. intros Hin. apply rooms_of_live in Hin. congruence.
  - by rewrite lookup_insert_ne.
Qed.

Lemma wf_join socket room s :
  live socket s = true → wf s →
  wf (with_client socket (rooms_add room) (with_rooms (Adapter.join socket room) s)).
Proof.
  intros Hlive [Hne Hag]. unfold views_agree in *. split; [by apply no_empty_room_join|].
  intros c r. rewrite rooms_of_add by done. simpl. rewrite members_join.
  specialize (Hag c r). unfold rooms_of in *. simpl.
  repeat case_decide; set_solver.
Qed.

Lemma wf_joinRoom socket room s :
  live socket s = true → wf s → wf (next (on_joinRoom socket room s)).
Proof. apply wf_join. Qed.

Lemma wf_leaveRoom socket room s :
  wf s → wf (next (on_leaveRoom socket room s)).
Proof.
  intros [Hne Hag]. unfold views_agree in *. split; [by apply no_empty_room_leave|].
  intros c r. simpl. rewrite rooms_of_delete. simpl. rewrite members_leave.
  specialize (Hag c r). unfold rooms_of in *. simpl.
  repeat case_decide; set_solver.
Qed.

Lemma wf_set_userId socket u s : wf s → wf (with_client socket (set_userId u) s).
Proof.
  intros [Hne Hag]. unfold views_agree in *. split; [done|].
  intros c r. rewrite rooms_of_set_userId. apply Hag.
Qed.

Lemma wf_register socket userId s :
  live socket s = true → wf s → wf (next (on_register socket userId s)).
Proof.
  intros Hlive Hwf. simpl.
  pose proof (wf_join socket (userRoomName userId) s Hlive Hwf) as [Hne Hag].
  destruct Hwf as [_ Hag0]. unfold views_agree in *. split; [done|].
  intros c r. rewrite rooms_of_add by (by rewrite !live_with_client).
  rewrite rooms_of_set_userId. simpl. rewrite members_join.
  specialize (Hag0 c r). unfold rooms_of in *. simpl.
  repeat case_decide; set_solver.
Qed.

Lemma wf_disconnect socket reason details s :
  wf s → wf (next (disconnect socket reason details s)).
Proof.
  intros [Hne Hag]. unfold views_agree in *. split; [apply no_empty_room_leaveAll|].
  intros c r. simpl. rewrite members_leaveAll, elem_of_difference, Hag.
  unfold rooms_of. simpl.
  destruct (decide (socket = c)) as [->|Hc].
  - rewrite lookup_delete_eq. simpl. set_solver.
  - rewrite lookup_delete_ne by done. set_solver.
Qed.

(** The handlers that only read the state. *)
Lemma next_broadcast_players_updated socket gameId s :
  next (on_broadcast_players_updated socket gameId s) = s.
Proof. unfold on_broadcast_players_updated. by case_match. Qed.

Lemma next_broadcast_comment_new socket gameId comment s :
  next (on_broadcast_comment_new socket gameId comment s) = s.
Proof. unfold on_broadcast_comment_new. by repeat case_match. Qed.

Lemma next_post_comment_new body now s : next (post_comment_new body now s) = s.
Proof. unfold post_comment_new. by repeat case_match. Qed.

Lemma next_post_comment_edit body now s : next (post_comment_edit body now s) = s.
Proof. unfold post_comment_edit. by repeat case_match. Qed.

Lemma next_post_comment_delete body now s : next (post_comment_delete body now s) = s.
Proof. unfold post_comment_delete. by repeat case_match. Qed.

Lemma next_post_test_send_message body s : next (post_test_send_message body s) = s.
Proof. unfold post_test_send_message. by repeat case_match. Qed.

Lemma wf_handle e s : enabled e s = true → wf s → wf (next (handle e s)).
Proof.
  intros Hen Hwf. destruct e; simpl in Hen; cbn [handle].
  - apply wf_connection; [by apply negb_true_iff | done].
  - by apply wf_joinRoom.
  - by apply wf_leaveRoom.
  - by apply wf_register.
  - by rewrite next_broadcast_players_updated.
  - by rewrite next_broadcast_comment_new.
  - done.
  - done.
  - by apply wf_disconnect.
  - done.
  - done.
  - by rewrite next_post_comment_new.
  - by rewrite next_post_comment_edit.
  - by rewrite next_post_comment_delete.
  - by rewrite next_post_test_send_message.
Qed.

Lemma wf_run tr : ∀ s s', wf s → run tr s = Some s' → wf s'.
Proof.
  induction tr as [|e tr IH]; intros s s' Hwf; simpl.
  - by intros [= <-].
  - destruct (enabled e s) eqn:Hen; [|done].
    apply IH. by apply wf_handle.
Qed.

Lemma wf_reachable s : reachable s → wf s.
Proof. intros [tr Htr]. eapply wf_run; [apply wf_initial | done]. Qed.

Lemma reachable_step e s :
  reachable s → enabled e s = true → reachable (next (handle e s)).
Proof.
  intros [tr Htr] Hen. exists (tr ++ [e])%list.
  revert Htr. generalize initial. induction tr as [|e' tr IH]; intros s0; simpl.
  - intros [= ->]. by rewrite Hen.
  - destruct (enabled e' s0); [apply IH | done].
Qed.

End server_facts.

(* ===================================================================== *)
(** ** Facts about deliveries *)
(* ===================================================================== *)

Section delivery_facts.
Implicit Types (rs : gmap string (gset string)) (sid room ev : string).

Lemma received_app sid (o1 o2 : list effect) :
  received sid (o1 ++ o2)%list = (received sid o1 ++ received sid o2)%list.
Proof. unfold received. apply omap_app. Qed.

Lemma deliveries_app (o1 o2 : list effect) :
  deliveries (o1 ++ o2)%list = (deliveries o1 ++ deliveries o2)%list.
Proof. unfold deliveries. apply omap_app. Qed.

Lemma received_cons_emit sid m ev data (out : list effect) :
  received sid (Emit m ev data :: out) =
  if decide (m = sid) then (ev, data) :: received sid out else received sid out.
Proof. unfold received. simpl. by case_decide. Qed.

Lemma received_cons_console sid l args (out : list effect) :
  received sid (Console l args :: out) = received sid out.
Proof. done. Qed.

Lemma received_emits sid ev data (l : list string) :
  NoDup l →
  received sid ((λ m, Emit m ev data) <$> l) =
  if decide (sid ∈ l) then [(ev, data)] else [].
Proof.
  induction 1 as [|m l Hm Hl IH].
  - done.
  - rewrite fmap_cons, received_cons_emit, IH.
    destruct (decide (m = sid)) as [->|Hne];
      repeat case_decide; first [done | set_solver].
Qed.

(** A broadcast reaches every member of the channel exactly once, and
    nobody else. *)
Lemma received_to_emit sid room ev data rs :
  received sid (to_emit room ev data rs) =
  if decide (sid ∈ Adapter.members room rs) then [(ev, data)] else [].
Proof.
  unfold to_emit. rewrite received_emits by apply NoDup_elements.
  destruct (decide (sid ∈ Adapter.members room rs)).
  - rewrite decide_True; [done | by apply elem_of_elements].
  - rewrite decide_False; [done | by rewrite elem_of_elements].
Qed.

Lemma deliveries_to_emit room ev data rs :
  deliveries (to_emit room ev data rs) =
  (λ m, (m, ev, data)) <$> elements (Adapter.members room rs).
Proof.
  unfold to_emit, deliveries.
  induction (elements (Adapter.members room rs)) as [|m l IH]; [done|].
  rewrite !fmap_cons. simpl. f_equal. exact IH.
Qed.

Lemma length_deliveries_to_emit room ev data rs :
  length (deliveries (to_emit room ev data rs)) = size (Adapter.members room rs).
Proof. rewrite deliveries_to_emit, length_fmap. done. Qed.

End delivery_facts.

(* ===================================================================== *)
(** ** The membership invariant *)
(* ===================================================================== *)

Section membership_history.
Import Server.
Implicit Types (s : relay) (c r : string) (tr : list event).

(** One event moves the member set and the history in step. *)
Lemma joined_step_members e s c r (before : bool) :
  (c ∈ Adapter.members r (io_rooms s) ↔ before = true) →
  (c ∈ Adapter.members r (io_rooms (next (handle e s))) ↔
   History.joined_step c r before e = true).
Proof.
  intros Hinv. destruct e; cbn [handle History.joined_step]; try exact Hinv.
  - (* joinRoom *)
    simpl. rewrite members_join.
    repeat case_decide; set_solver.
  - (* leaveRoom *)
    simpl. rewrite members_leave.
    repeat case_decide; set_solver.
  - (* register *)
    simpl. rewrite members_join.
    repeat case_decide; set_solver.
  - by rewrite next_broadcast_players_updated.
  - by rewrite next_broadcast_comment_new.
  - (* disconnect *)
    simpl. rewrite members_leaveAll.
    case_decide; set_solver.
  - by rewrite next_post_comment_new.
  - by rewrite next_post_comment_edit.
  - by rewrite next_post_comment_delete.
  - by rewrite next_post_test_send_message.
Qed.

Lemma run_joined c r tr : ∀ s s' (before : bool),
  (c ∈ Adapter.members r (io_rooms s) ↔ before = true) →
  run tr s = Some s' →
  (c ∈ Adapter.members r (io_rooms s') ↔ foldl (History.joined_step c r) before tr = true).
Proof.
  induction tr as [|e tr IH]; intros s s' before Hinv; simpl.
  - by intros [= <-].
  - destruct (enabled e s); [|done].
    apply IH. by apply joined_step_members.
Qed.

Lemma member_live c r s : wf s → c ∈ Adapter.members r (io_rooms s) → live c s = true.
Proof. intros [_ Hag] Hin. apply (rooms_of_live c r). by apply Hag. Qed.

End membership_history.

(** C1. In every reachable state, and for every channel name [r], the
    members of [r] are exactly the connected sockets whose last
    membership event for [r] was a join (by [joinRoom], or by
    [register] for the user's channel), with no leave of [r] and no
    disconnect since.  The statement is over every sequence of events,
    so every operation preserves it. *)
Theorem C1_member_set_is_last_joined tr s :
  Server.run tr Server.initial = Some s →
  ∀ c r, c ∈ Adapter.members r (Server.io_rooms s) ↔
         Server.live c s = true ∧ History.last_joined tr c r = true.
Proof.
  intros Hrun c r.
  assert (c ∈ Adapter.members r (Server.io_rooms s) ↔
          History.last_joined tr c r = true) as Hhist.
  { eapply run_joined; [|exact Hrun]. simpl.
    unfold Adapter.members. rewrite lookup_empty. simpl. set_solver. }
  split.
  - intros Hin. split; [|by apply Hhist].
    eapply member_live; [|exact Hin]. apply wf_reachable. by exists tr.
  - intros [_ Hj]. by apply Hhist.
Qed.

Lemma C1_member_set_is_last_joined_witness :
  Server.run comings_and_goings Server.initial = Some (state_after comings_and_goings) ∧
  ∀ c r, c ∈ Adapter.members r (Server.io_rooms (state_after comings_and_goings)) ↔
         Server.live c (state_after comings_and_goings) = true ∧
         History.last_joined comings_and_goings c r = true.
Proof.
  split; [reflexivity|].
  apply (C1_member_set_is_last_joined comings_and_goings). reflexivity.
Defined.

(* ===================================================================== *)
(** ** The gated broadcast *)
(* ===================================================================== *)

(** C2. A connection that is not a member of [game_<gameId>] and sends
    [broadcast_comment_new({gameId, comment})] causes no delivery at
    all: the handler writes one warning to the console, sends nothing
    back to the sender, and leaves the state as it was. *)
Theorem C2_gated_broadcast_dropped s c gameId comment :
  Server.reachable s →
  c ∉ Adapter.members (Server.getGameRoomName gameId) (Server.io_rooms s) →
  let o := Server.on_broadcast_comment_new c gameId comment s in
  deliveries (Server.effects o) = [] ∧
  (∃ line, Server.effects o = [Console Warn [Js.Str line]]) ∧
  Server.reply o = None ∧
  Server.next o = s.
Proof.
  intros Hreach Hnot. apply wf_reachable in Hreach as [_ Hag].
  assert (Server.rooms_has c (Server.getGameRoomName gameId) s = false) as Hhas.
  { unfold Server.rooms_has. apply bool_decide_eq_false. by rewrite <- (Hag c). }
  simpl. unfold Server.on_broadcast_comment_new.
  destruct (negb (Js.truthy gameId) || negb (Js.truthy comment)); simpl.
  - eauto.
  - rewrite Hhas. simpl. eauto.
Qed.

Lemma C2_gated_broadcast_dropped_witness :
  ("b" ∉ Adapter.members "game_42" (Server.io_rooms (state_after two_in_game_123))) ∧
  let o := Server.on_broadcast_comment_new "b" (Js.Num 42) (Js.Obj [("id", Js.Num 1)])
             (state_after two_in_game_123) in
  deliveries (Server.effects o) = [] ∧
  (∃ line, Server.effects o = [Console Warn [Js.Str line]]) ∧
  Server.reply o = None ∧
  Server.next o = state_after two_in_game_123.
Proof.
  assert ("b" ∉ Adapter.members "game_42"
            (Server.io_rooms (state_after two_in_game_123))) as Hnot.
  { vm_compute. set_solver. }
  split; [exact Hnot|].
  apply (C2_gated_broadcast_dropped (state_after two_in_game_123) "b"
           (Js.Num 42) (Js.Obj [("id", Js.Num 1)])).
  - exists two_in_game_123. reflexivity.
  - exact Hnot.
Defined.

(* ===================================================================== *)
(** ** Validation at the HTTP boundary *)
(* ===================================================================== *)

Section validation.
Import Server.
Implicit Types (s : relay) (body : Js.object) (now : string).

Lemma rejected_intro s b : rejected (Outcome s [] (status_json 400 b)) s.
Proof. unfold rejected. simpl. eauto. Qed.

Lemma post_comment_new_top body now s :
  Js.truthy (Js.field "gameId" body) = false ∨
  Js.truthy (Js.field "comment" body) = false →
  post_comment_new body now s =
  Outcome s [] (status_json 400 (missing_fields ["gameId"; "comment"])).
Proof. unfold post_comment_new. intros [-> | ->]; simpl; by rewrite ?orb_true_r. Qed.

Lemma post_comment_edit_top body now s :
  Js.truthy (Js.field "gameId" body) = false ∨
  Js.truthy (Js.field "comment" body) = false →
  post_comment_edit body now s =
  Outcome s [] (status_json 400 (missing_fields ["gameId"; "comment"])).
Proof. unfold post_comment_edit. intros [-> | ->]; simpl; by rewrite ?orb_true_r. Qed.

Lemma post_comment_delete_top body now s :
  Js.truthy (Js.field "gameId" body) = false ∨
  Js.truthy (Js.field "commentId" body) = false →
  post_comment_delete body now s =
  Outcome s [] (status_json 400 (missing_fields ["gameId"; "commentId"])).
Proof. unfold post_comment_delete. intros [-> | ->]; simpl; by rewrite ?orb_true_r. Qed.

Lemma post_comment_new_nested body now s :
  Js.truthy (Js.prop "id" (Js.field "comment" body)) = false ∨
  Js.truthy (Js.prop "text" (Js.field "comment" body)) = false →
  rejected (post_comment_new body now s) s.
Proof.
  intros Hfalsy. unfold post_comment_new.
  destruct (negb (Js.truthy (Js.field "gameId" body))
            || negb (Js.truthy (Js.field "comment" body)));
    [apply rejected_intro|].
  destruct Hfalsy as [-> | ->]; simpl; rewrite ?orb_true_r; apply rejected_intro.
Qed.

Lemma post_comment_edit_nested body now s :
  Js.truthy (Js.prop "id" (Js.field "comment" body)) = false →
  rejected (post_comment_edit body now s) s.
Proof.
  intros Hfalsy. unfold post_comment_edit.
  destruct (negb (Js.truthy (Js.field "gameId" body))
            || negb (Js.truthy (Js.field "comment" body)));
    [apply rejected_intro|].
  rewrite Hfalsy. simpl. apply rejected_intro.
Qed.

Lemma lists_required_missing_fields s fields :
  lists_required (Outcome s [] (status_json 400 (missing_fields fields))) fields.
Proof. unfold lists_required. simpl. eauto. Qed.

Lemma truthy_prop_truthy k v : Js.truthy (Js.prop k v) = true → Js.truthy v = true.
Proof. intros H. apply truthy_has_prop in H as [o ->]. done. Qed.

Lemma post_comment_new_accepts body now s :
  Js.truthy (Js.field "gameId" body) = true →
  Js.truthy (Js.prop "id" (Js.field "comment" body)) = true →
  Js.truthy (Js.prop "text" (Js.field "comment" body)) = true →
  post_comment_new body now s =
  Outcome s
    (snd (emitToGame (Js.field "gameId" body) "game_comment_new" (Js.field "comment" body) s))
    (json (Js.Obj [("success", Js.Bool true);
                   ("gameId", Js.field "gameId" body);
                   ("room", Js.Str (getGameRoomName (Js.field "gameId" body)));
                   ("recipients", num (getRoomSize (getGameRoomName (Js.field "gameId" body)) s));
                   ("event", Js.Str "game_comment_new");
                   ("timestamp", Js.Str now)])).
Proof.
  intros Hg Hid Htext. unfold post_comment_new.
  rewrite Hg, (truthy_prop_truthy _ _ Hid), Hid, Htext. done.
Qed.

End validation.

(** C3, as stated, fails: a body that contains [gameId: 0] and a comment
    with [id] and [text] is answered 400, and the two members of
    [game_0] receive nothing. *)
Lemma C3_contains_is_not_enough :
  let body := [("gameId", Js.Num 0);
               ("comment", Js.Obj [("id", Js.Num 456); ("text", Js.Str "hi")])] in
  let o := Server.post_comment_new body "2024-05-01T10:00:00.000Z"
             (state_after two_in_game_0) in
  Js.lookup_prop "gameId" body = Some (Js.Num 0) ∧
  Js.lookup_prop "comment" body =
    Some (Js.Obj [("id", Js.Num 456); ("text", Js.Str "hi")]) ∧
  elements (Adapter.members "game_0" (Server.io_rooms (state_after two_in_game_0)))
    = ["a"; "b"] ∧
  Server.reply o =
    Some (Response 400 (Js.Obj [("error", Js.Str "Missing required fields");
                                ("required", Js.Arr [Js.Str "gameId"; Js.Str "comment"])])) ∧
  received "a" (Server.effects o) = [] ∧
  received "b" (Server.effects o) = [].
Proof. vm_compute. repeat split; reflexivity. Qed.

(** C3, amended.  A POST /api/broadcast/game-comment/new whose body has a
    truthy [gameId] and a comment whose [id] and [text] are truthy is
    answered 200 with [{success: true, gameId, room: "game_<gameId>",
    recipients, event: "game_comment_new", timestamp}], where
    [recipients] is the number of members of [game_<gameId>] when the
    request is handled; every member receives [game_comment_new] with
    the comment unchanged, exactly once, nobody else receives anything,
    and the state is not changed. *)
Theorem C3_post_comment_new_broadcasts body now s :
  Js.truthy (Js.field "gameId" body) = true →
  Js.truthy (Js.prop "id" (Js.field "comment" body)) = true →
  Js.truthy (Js.prop "text" (Js.field "comment" body)) = true →
  let gameId := Js.field "gameId" body in
  let comment := Js.field "comment" body in
  let room := Server.getGameRoomName gameId in
  let o := Server.post_comment_new body now s in
  Server.reply o =
    Some (Response 200
            (Js.Obj [("success", Js.Bool true);
                     ("gameId", gameId);
                     ("room", Js.Str room);
                     ("recipients",
                      Js.Num (Z.of_nat (size (Adapter.members room (Server.io_rooms s)))));
                     ("event", Js.Str "game_comment_new");
                     ("timestamp", Js.Str now)])) ∧
  (∀ sid, sid ∈ Adapter.members room (Server.io_rooms s) →
          received sid (Server.effects o) = [("game_comment_new", comment)]) ∧
  (∀ sid, sid ∉ Adapter.members room (Server.io_rooms s) →
          received sid (Server.effects o) = []) ∧
  Server.next o = s.
Proof.
  intros Hg Hid Htext. simpl.
  rewrite post_comment_new_accepts by done. simpl.
  rewrite getRoomSize_members.
  split; [done|].
  split; [|split; [|done]]; intros sid Hsid;
    rewrite received_app, received_to_emit; simpl.
  - by rewrite decide_True.
  - by rewrite decide_False.
Qed.

Lemma C3_post_comment_new_broadcasts_witness :
  let body := [("gameId", Js.Num 123);
               ("comment", Js.Obj [("id", Js.Num 456); ("text", Js.Str "hi")])] in
  let o := Server.post_comment_new body "2024-05-01T10:00:00.000Z"
             (state_after two_in_game_123) in
  Server.reply o =
    Some (Response 200
            (Js.Obj [("success", Js.Bool true);
                     ("gameId", Js.Num 123);
                     ("room", Js.Str "game_123");
                     ("recipients", Js.Num 2);
                     ("event", Js.Str "game_comment_new");
                     ("timestamp", Js.Str "2024-05-01T10:00:00.000Z")])) ∧
  received "a" (Server.effects o) =
    [("game_comment_new", Js.Obj [("id", Js.Num 456); ("text", Js.Str "hi")])] ∧
  received "b" (Server.effects o) =
    [("game_comment_new", Js.Obj [("id", Js.Num 456); ("text", Js.Str "hi")])].
Proof.
  pose proof (C3_post_comment_new_broadcasts
                [("gameId", Js.Num 123);
                 ("comment", Js.Obj [("id", Js.Num 456); ("text", Js.Str "hi")])]
                "2024-05-01T10:00:00.000Z" (state_after two_in_game_123)
                eq_refl eq_refl eq_refl) as (Hreply & Hmem & _ & _).
  split; [exact Hreply|].
  split; apply Hmem; vm_compute; set_solver.
Defined.

(** C4, as stated, fails: a request to the new-comment endpoint whose
    comment has no [text] is answered 400, but the body carries only an
    error message, not a list of required fields. *)
Lemma C4_no_list_for_comment_fields :
  let body := [("gameId", Js.Num 123); ("comment", Js.Obj [("id", Js.Num 456)])] in
  let o := Server.post_comment_new body "2024-05-01T10:00:00.000Z"
             (state_after two_in_game_123) in
  Js.lookup_prop "text" [("id", Js.Num 456)] = None ∧
  Server.reply o =
    Some (Response 400 (Js.Obj [("error", Js.Str "Comment must have id and text fields")])) ∧
  ∀ fields, ¬ lists_required o fields.
Proof.
  split; [reflexivity|]. split; [reflexivity|].
  intros fields (b & Hb & Hreq). vm_compute in Hb.
  injection Hb as <-. vm_compute in Hreq. discriminate.
Qed.

Lemma post_comment_new_nested_body body now s :
  Js.truthy (Js.field "gameId" body) = true →
  Js.truthy (Js.field "comment" body) = true →
  Js.truthy (Js.prop "id" (Js.field "comment" body)) = false ∨
  Js.truthy (Js.prop "text" (Js.field "comment" body)) = false →
  Server.post_comment_new body now s =
  Server.Outcome s []
    (Server.status_json 400
       (Js.Obj [("error", Js.Str "Comment must have id and text fields")])).
Proof.
  intros Hg Hc Hfalsy. unfold Server.post_comment_new. rewrite Hg, Hc. cbn [negb orb].
  destruct Hfalsy as [-> | ->]; cbn [negb orb]; by rewrite ?orb_true_r.
Qed.

Lemma post_comment_edit_nested_body body now s :
  Js.truthy (Js.field "gameId" body) = true →
  Js.truthy (Js.field "comment" body) = true →
  Js.truthy (Js.prop "id" (Js.field "comment" body)) = false →
  Server.post_comment_edit body now s =
  Server.Outcome s []
    (Server.status_json 400 (Js.Obj [("error", Js.Str "Comment must have id field")])).
Proof.
  intros Hg Hc Hfalsy. unfold Server.post_comment_edit. by rewrite Hg, Hc, Hfalsy.
Qed.

Lemma error_only_lists_nothing s msg fields :
  ¬ lists_required
      (Server.Outcome s [] (Server.status_json 400 (Js.Obj [("error", Js.Str msg)])))
      fields.
Proof. intros (b & Hb & Hreq). simpl in Hb. injection Hb as <-. discriminate Hreq. Qed.

(** C4, amended.  A request to one of the three comment endpoints whose
    body misses a required field is answered 400, nothing is emitted and
    the state is not changed.  When the missing field is one of the
    body ([gameId], [comment], [commentId]) the response lists the
    required fields.  When [gameId] is truthy, [comment] is an object
    and the missing field is a field of the comment ([id], [text]) the
    response is an error message only, with no list:
    [{error: "Comment must have id and text fields"}] on the new-comment
    endpoint, [{error: "Comment must have id field"}] on the edit
    endpoint. *)
Theorem C4_missing_field_rejected body now s :
  ((Js.lookup_prop "gameId" body = None ∨ Js.lookup_prop "comment" body = None) →
   rejected (Server.post_comment_new body now s) s ∧
   lists_required (Server.post_comment_new body now s) ["gameId"; "comment"]) ∧
  ((Js.lookup_prop "gameId" body = None ∨ Js.lookup_prop "comment" body = None) →
   rejected (Server.post_comment_edit body now s) s ∧
   lists_required (Server.post_comment_edit body now s) ["gameId"; "comment"]) ∧
  ((Js.lookup_prop "gameId" body = None ∨ Js.lookup_prop "commentId" body = None) →
   rejected (Server.post_comment_delete body now s) s ∧
   lists_required (Server.post_comment_delete body now s) ["gameId"; "commentId"]) ∧
  (∀ c, Js.lookup_prop "comment" body = Some (Js.Obj c) →
        Js.lookup_prop "id" c = None ∨ Js.lookup_prop "text" c = None →
        rejected (Server.post_comment_new body now s) s ∧
        (Js.truthy (Js.field "gameId" body) = true →
         Server.reply (Server.post_comment_new body now s) =
           Some (Response 400
                   (Js.Obj [("error", Js.Str "Comment must have id and text fields")])) ∧
         ∀ fields, ¬ lists_required (Server.post_comment_new body now s) fields)) ∧
  (∀ c, Js.lookup_prop "comment" body = Some (Js.Obj c) →
        Js.lookup_prop "id" c = None →
        rejected (Server.post_comment_edit body now s) s ∧
        (Js.truthy (Js.field "gameId" body) = true →
         Server.reply (Server.post_comment_edit body now s) =
           Some (Response 400 (Js.Obj [("error", Js.Str "Comment must have id field")])) ∧
         ∀ fields, ¬ lists_required (Server.post_comment_edit body now s) fields)).
Proof.
  assert (∀ k, Js.lookup_prop k body = None → Js.truthy (Js.field k body) = false) as Habs.
  { intros k Hk. by rewrite field_absent. }
  split; [|split; [|split; [|split]]].
  - intros Hmiss.
    rewrite post_comment_new_top by (destruct Hmiss; [left | right]; by apply Habs).
    split; [apply rejected_intro | apply lists_required_missing_fields].
  - intros Hmiss.
    rewrite post_comment_edit_top by (destruct Hmiss; [left | right]; by apply Habs).
    split; [apply rejected_intro | apply lists_required_missing_fields].
  - intros Hmiss.
    rewrite post_comment_delete_top by (destruct Hmiss; [left | right]; by apply Habs).
    split; [apply rejected_intro | apply lists_required_missing_fields].
  - intros c Hc Hmiss.
    assert (Js.field "comment" body = Js.Obj c) as Hobj
      by (unfold Js.field; by rewrite Hc).
    assert (Js.truthy (Js.prop "id" (Js.field "comment" body)) = false ∨
            Js.truthy (Js.prop "text" (Js.field "comment" body)) = false) as Hfalsy.
    { rewrite Hobj. simpl.
      destruct Hmiss as [Hm | Hm]; [left | right]; by rewrite field_absent. }
    split; [by apply post_comment_new_nested|].
    intros Hg. rewrite post_comment_new_nested_body; [| done | by rewrite Hobj | done].
    split; [done|]. intros fields. apply error_only_lists_nothing.
  - intros c Hc Hmiss.
    assert (Js.field "comment" body = Js.Obj c) as Hobj
      by (unfold Js.field; by rewrite Hc).
    assert (Js.truthy (Js.prop "id" (Js.field "comment" body)) = false) as Hfalsy.
    { rewrite Hobj. simpl. by rewrite field_absent. }
    split; [by apply post_comment_edit_nested|].
    intros Hg. rewrite post_comment_edit_nested_body; [| done | by rewrite Hobj | done].
    split; [done|]. intros fields. apply error_only_lists_nothing.
Qed.

Lemma C4_missing_field_rejected_witness :
  let s := state_after two_in_game_123 in
  let now := "2024-05-01T10:00:00.000Z" in
  let no_commentId := [("gameId", Js.Num 123)] in
  let no_text := [("gameId", Js.Num 123); ("comment", Js.Obj [("id", Js.Num 456)])] in
  let no_id := [("gameId", Js.Num 123); ("comment", Js.Obj [("text", Js.Str "hi")])] in
  (rejected (Server.post_comment_delete no_commentId now s) s ∧
   lists_required (Server.post_comment_delete no_commentId now s) ["gameId"; "commentId"]) ∧
  (rejected (Server.post_comment_new no_text now s) s ∧
   Server.reply (Server.post_comment_new no_text now s) =
     Some (Response 400
             (Js.Obj [("error", Js.Str "Comment must have id and text fields")]))) ∧
  (rejected (Server.post_comment_edit no_id now s) s ∧
   Server.reply (Server.post_comment_edit no_id now s) =
     Some (Response 400 (Js.Obj [("error", Js.Str "Comment must have id field")]))).
Proof.
  split; [|split].
  - pose proof (C4_missing_field_rejected [("gameId", Js.Num 123)]
                  "2024-05-01T10:00:00.000Z" (state_after two_in_game_123))
      as (_ & _ & Hdelete & _).
    apply Hdelete. right. reflexivity.
  - pose proof (C4_missing_field_rejected
                  [("gameId", Js.Num 123); ("comment", Js.Obj [("id", Js.Num 456)])]
                  "2024-05-01T10:00:00.000Z" (state_after two_in_game_123))
      as (_ & _ & _ & Hnew & _).
    destruct (Hnew [("id", Js.Num 456)] eq_refl (or_intror eq_refl)) as [Hrej Hbody].
    split; [exact Hrej | exact (proj1 (Hbody eq_refl))].
  - pose proof (C4_missing_field_rejected
                  [("gameId", Js.Num 123); ("comment", Js.Obj [("text", Js.Str "hi")])]
                  "2024-05-01T10:00:00.000Z" (state_after two_in_game_123))
      as (_ & _ & _ & _ & Hedit).
    destruct (Hedit [("text", Js.Str "hi")] eq_refl eq_refl) as [Hrej Hbody].
    split; [exact Hrej | exact (proj1 (Hbody eq_refl))].
Defined.

Lemma field_present k o v : Js.lookup_prop k o = Some v → Js.field k o = v.
Proof. unfold Js.field. by intros ->. Qed.

(** C10. The endpoints test their required fields for truthiness: a
    request in which [gameId], [commentId] or [comment.id] is present
    and equal to 0, or in which the [comment.text] that the new-comment
    endpoint requires is the empty string, is answered 400, nothing is
    emitted and the state is not changed. *)
Theorem C10_zero_and_empty_rejected body now s :
  ((Js.lookup_prop "gameId" body = Some (Js.Num 0) ∨
    ∃ c, Js.lookup_prop "comment" body = Some (Js.Obj c) ∧
         (Js.lookup_prop "id" c = Some (Js.Num 0) ∨
          Js.lookup_prop "text" c = Some (Js.Str ""))) →
   rejected (Server.post_comment_new body now s) s) ∧
  ((Js.lookup_prop "gameId" body = Some (Js.Num 0) ∨
    ∃ c, Js.lookup_prop "comment" body = Some (Js.Obj c) ∧
         Js.lookup_prop "id" c = Some (Js.Num 0)) →
   rejected (Server.post_comment_edit body now s) s) ∧
  ((Js.lookup_prop "gameId" body = Some (Js.Num 0) ∨
    Js.lookup_prop "commentId" body = Some (Js.Num 0)) →
   rejected (Server.post_comment_delete body now s) s).
Proof.
  split; [|split].
  - intros [Hg | (c & Hc & Hfield)].
    + rewrite post_comment_new_top; [apply rejected_intro|].
      left. by rewrite (field_present _ _ _ Hg).
    + apply post_comment_new_nested. rewrite (field_present _ _ _ Hc). simpl.
      destruct Hfield as [Hf | Hf]; [left | right]; by rewrite (field_present _ _ _ Hf).
  - intros [Hg | (c & Hc & Hf)].
    + rewrite post_comment_edit_top; [apply rejected_intro|].
      left. by rewrite (field_present _ _ _ Hg).
    + apply post_comment_edit_nested. rewrite (field_present _ _ _ Hc). simpl.
      by rewrite (field_present _ _ _ Hf).
  - intros Hzero. rewrite post_comment_delete_top; [apply rejected_intro|].
    destruct Hzero as [Hz | Hz]; [left | right]; by rewrite (field_present _ _ _ Hz).
Qed.

Lemma C10_zero_and_empty_rejected_witness :
  let s := state_after two_in_game_0 in
  let now := "2024-05-01T10:00:00.000Z" in
  rejected (Server.post_comment_new
              [("gameId", Js.Num 0);
               ("comment", Js.Obj [("id", Js.Num 456); ("text", Js.Str "hi")])] now s) s ∧
  rejected (Server.post_comment_new
              [("gameId", Js.Num 123);
               ("comment", Js.Obj [("id", Js.Num 456); ("text", Js.Str "")])] now s) s ∧
  rejected (Server.post_comment_edit
              [("gameId", Js.Num 123);
               ("comment", Js.Obj [("id", Js.Num 0); ("text", Js.Str "hi")])] now s) s ∧
  rejected (Server.post_comment_delete
              [("gameId", Js.Num 123); ("commentId", Js.Num 0)] now s) s.
Proof.
  split; [|split; [|split]].
  - apply (proj1 (C10_zero_and_empty_rejected _ _ _)). left. reflexivity.
  - apply (proj1 (C10_zero_and_empty_rejected _ _ _)). right.
    exists [("id", Js.Num 456); ("text", Js.Str "")].
    split; [reflexivity | right; reflexivity].
  - apply (proj1 (proj2 (C10_zero_and_empty_rejected _ _ _))). right.
    exists [("id", Js.Num 0); ("text", Js.Str "hi")].
    split; reflexivity.
  - apply (proj2 (proj2 (C10_zero_and_empty_rejected _ _ _))). right. reflexivity.
Defined.

(** The edit endpoint does not require [comment.text]: an empty text
    passes and is broadcast. *)
Example edit_accepts_empty_text :
  let o := Server.post_comment_edit
             [("gameId", Js.Num 123);
              ("comment", Js.Obj [("id", Js.Num 456); ("text", Js.Str "")])]
             "2024-05-01T10:00:00.000Z" (state_after two_in_game_123) in
  status <$> Server.reply o = Some 200 ∧
  received "a" (Server.effects o) =
    [("game_comment_edit", Js.Obj [("id", Js.Num 456); ("text", Js.Str "")])].
Proof. vm_compute. split; reflexivity. Qed.

(* ===================================================================== *)
(** ** Join and leave *)
(* ===================================================================== *)

Section join_leave.
Import Server.
Implicit Types (s : relay) (c r : string).

Lemma rooms_add_add r (ci : clientInfo) : rooms_add r (rooms_add r ci) = rooms_add r ci.
Proof. unfold rooms_add. simpl. f_equal. set_solver. Qed.

Lemma rooms_add_has r (ci : clientInfo) : r ∈ rooms ci → rooms_add r ci = ci.
Proof. intros Hin. destruct ci as [i t a rs u]. unfold rooms_add. simpl in *. f_equal. set_solver. Qed.

Lemma rooms_delete_add r (ci : clientInfo) :
  r ∉ rooms ci → rooms_delete r (rooms_add r ci) = ci.
Proof.
  intros Hnot. destruct ci as [i t a rs u].
  unfold rooms_delete, rooms_add. simpl in *. f_equal. set_solver.
Qed.

Lemma rooms_delete_hasnt r (ci : clientInfo) : r ∉ rooms ci → rooms_delete r ci = ci.
Proof.
  intros Hnot. destruct ci as [i t a rs u].
  unfold rooms_delete. simpl in *. f_equal. set_solver.
Qed.

Lemma joinRoom_twice c r s :
  next (on_joinRoom c r (next (on_joinRoom c r s))) = next (on_joinRoom c r s).
Proof.
  simpl. unfold with_client, with_rooms. simpl. f_equal.
  - rewrite alter_alter_eq. apply alter_ext. intros ci _. apply rooms_add_add.
  - apply join_join.
Qed.

Lemma joinRoom_member c r s :
  wf s → c ∈ Adapter.members r (io_rooms s) → next (on_joinRoom c r s) = s.
Proof.
  intros [_ Hag] Hin. destruct s as [cl rs]. simpl in *.
  unfold with_client, with_rooms. simpl. f_equal.
  - apply alter_id. intros ci Hci. apply rooms_add_has.
    apply (Hag c r) in Hin. unfold rooms_of in Hin. simpl in Hin.
    by rewrite Hci in Hin.
  - by apply join_member.
Qed.

Lemma leaveRoom_joinRoom c r s :
  wf s → c ∉ Adapter.members r (io_rooms s) →
  next (on_leaveRoom c r (next (on_joinRoom c r s))) = s.
Proof.
  intros [Hne Hag] Hnot. destruct s as [cl rs]. simpl in *.
  unfold with_client, with_rooms. simpl. f_equal.
  - rewrite alter_alter_eq. apply alter_id. intros ci Hci.
    apply rooms_delete_add. intros Hin. apply Hnot, (Hag c r).
    unfold rooms_of. simpl. by rewrite Hci.
  - by apply leave_join.
Qed.

Lemma leaveRoom_not_member c r s :
  wf s → c ∉ Adapter.members r (io_rooms s) → next (on_leaveRoom c r s) = s.
Proof.
  intros [Hne Hag] Hnot. destruct s as [cl rs]. simpl in *.
  unfold with_client, with_rooms. simpl. f_equal.
  - apply alter_id. intros ci Hci.
    apply rooms_delete_hasnt. intros Hin. apply Hnot, (Hag c r).
    unfold rooms_of. simpl. by rewrite Hci.
  - by apply leave_not_member.
Qed.

Lemma size_leave_after_join c r s :
  getRoomSize r (next (on_joinRoom c r s)) =
  S (getRoomSize r (next (on_leaveRoom c r (next (on_joinRoom c r s))))).
Proof.
  rewrite !getRoomSize_members. simpl.
  rewrite members_leave, members_join, !decide_True by done.
  set (M := Adapter.members r (io_rooms s)).
  replace (({[c]} ∪ M) ∖ {[c]}) with (M ∖ {[c]}) by set_solver.
  replace ({[c]} ∪ M) with ({[c]} ∪ M ∖ {[c]}).
  - rewrite size_union by set_solver. by rewrite size_singleton.
  - apply set_eq. intros x. destruct (decide (x = c)); set_solver.
Qed.

End join_leave.

(** C5. Joining a channel twice in succession gives the same state as
    joining it once: the same member set of the channel, the same room
    set of the connection, the same channel size.  In a reachable state,
    joining a channel one is already a member of changes nothing; the
    handler answers as for any join, without an error. *)
Theorem C5_join_idempotent c r s :
  let s1 := Server.next (Server.on_joinRoom c r s) in
  let s2 := Server.next (Server.on_joinRoom c r s1) in
  (s2 = s1 ∧
   Adapter.members r (Server.io_rooms s2) = Adapter.members r (Server.io_rooms s1) ∧
   Server.rooms_of c s2 = Server.rooms_of c s1 ∧
   Server.getRoomSize r s2 = Server.getRoomSize r s1) ∧
  (Server.reachable s → c ∈ Adapter.members r (Server.io_rooms s) → s1 = s) ∧
  Server.reply (Server.on_joinRoom c r s1) = None.
Proof.
  cbv zeta. split; [|split; [|done]].
  - by rewrite joinRoom_twice.
  - intros Hreach Hin. apply joinRoom_member; [by apply wf_reachable | done].
Qed.

Lemma C5_join_idempotent_witness :
  ("a" ∈ Adapter.members "game_1" (Server.io_rooms (state_after one_in_two_rooms))) ∧
  Server.next (Server.on_joinRoom "a" "game_1" (state_after one_in_two_rooms))
  = state_after one_in_two_rooms.
Proof.
  assert ("a" ∈ Adapter.members "game_1"
            (Server.io_rooms (state_after one_in_two_rooms))) as Hin.
  { vm_compute. set_solver. }
  split; [exact Hin|].
  apply (C5_join_idempotent "a" "game_1" (state_after one_in_two_rooms));
    [by exists one_in_two_rooms | exact Hin].
Defined.

(** C6, as stated, fails for a connection that is already a member: the
    join changes nothing, the leave takes the connection out, and the
    state is not the one before the join. *)
Lemma C6_already_member_not_restored :
  let s := state_after one_in_two_rooms in
  let s' := Server.next (Server.on_leaveRoom "a" "game_1"
                           (Server.next (Server.on_joinRoom "a" "game_1" s))) in
  Server.run one_in_two_rooms Server.initial = Some s ∧
  elements (Adapter.members "game_1" (Server.io_rooms s)) = ["a"; "b"] ∧
  elements (Adapter.members "game_1" (Server.io_rooms s')) = ["b"] ∧
  s' ≠ s.
Proof.
  split; [reflexivity|]. split; [reflexivity|]. split; [reflexivity|].
  intros Heq.
  assert (elements (Adapter.members "game_1"
                      (Server.io_rooms (state_after one_in_two_rooms))) = ["b"])
    as Hb by (rewrite <- Heq at 1; reflexivity).
  vm_compute in Hb. discriminate.
Qed.

(** C6, amended.  In a reachable state, for a connection [c] that is not
    a member of channel [r], a leave right after a join gives back the
    state before the join.  For every connection, the size of [r] after
    the leave is exactly one less than after the join (a natural
    number, so never negative).  Leaving a channel one is not a member
    of changes nothing and is not an error. *)
Theorem C6_leave_undoes_join s c r :
  Server.reachable s →
  let s1 := Server.next (Server.on_joinRoom c r s) in
  let s2 := Server.next (Server.on_leaveRoom c r s1) in
  (c ∉ Adapter.members r (Server.io_rooms s) → s2 = s) ∧
  Server.getRoomSize r s1 = S (Server.getRoomSize r s2) ∧
  (c ∉ Adapter.members r (Server.io_rooms s) →
   Server.next (Server.on_leaveRoom c r s) = s ∧
   Server.reply (Server.on_leaveRoom c r s) = None).
Proof.
  intros Hreach. apply wf_reachable in Hreach. cbv zeta.
  split; [|split].
  - by apply leaveRoom_joinRoom.
  - apply size_leave_after_join.
  - intros Hnot. split; [by apply leaveRoom_not_member | done].
Qed.

Lemma C6_leave_undoes_join_witness :
  let s := state_after one_in_two_rooms in
  ("b" ∉ Adapter.members "game_2" (Server.io_rooms s)) ∧
  Server.next (Server.on_leaveRoom "b" "game_2"
                 (Server.next (Server.on_joinRoom "b" "game_2" s))) = s ∧
  Server.getRoomSize "game_2" (Server.next (Server.on_joinRoom "b" "game_2" s)) = 2 ∧
  Server.next (Server.on_leaveRoom "b" "game_2" s) = s.
Proof.
  assert ("b" ∉ Adapter.members "game_2"
            (Server.io_rooms (state_after one_in_two_rooms))) as Hnot.
  { vm_compute. set_solver. }
  pose proof (C6_leave_undoes_join (state_after one_in_two_rooms) "b" "game_2"
                (ex_intro _ one_in_two_rooms eq_refl)) as (Hundo & Hsize & Hnoop).
  split; [exact Hnot|].
  split; [exact (Hundo Hnot)|].
  split; [reflexivity|].
  exact (proj1 (Hnoop Hnot)).
Defined.

(* ===================================================================== *)
(** ** Disconnect *)
(* ===================================================================== *)

Section offline.
Import Server.
Implicit Types (s : relay) (c r : string).

Lemma not_member_offline c r s :
  wf s → live c s = false → c ∉ Adapter.members r (io_rooms s).
Proof. intros Hwf Hoff Hin. apply (member_live c r s Hwf) in Hin. congruence. Qed.

Lemma received_broadcast_offline c room ev data s (tail : list effect) :
  wf s → live c s = false →
  received c (to_emit room ev data (io_rooms s) ++ tail)%list = received c tail.
Proof.
  intros Hwf Hoff. rewrite received_app, received_to_emit.
  rewrite decide_False; [done | by apply not_member_offline].
Qed.

Lemma received_emitToGame_offline c gameId ev data s :
  wf s → live c s = false → received c (snd (emitToGame gameId ev data s)) = [].
Proof.
  intros Hwf Hoff. unfold emitToGame. cbn [snd].
  by rewrite received_broadcast_offline.
Qed.

(** A socket that is not connected receives nothing, whatever arrives. *)
Lemma offline_receives_nothing c e s :
  wf s → live c s = false → enabled e s = true →
  received c (effects (handle e s)) = [].
Proof.
  intros Hwf Hoff Hen.
  pose proof (received_broadcast_offline c) as Hb.
  assert (∀ room ev data,
            received c (to_emit room ev data (io_rooms s)) = []) as Hb0.
  { intros room ev data. rewrite <- (app_nil_r (to_emit _ _ _ _)). by rewrite Hb. }
  destruct e; cbn [handle]; simpl in Hen.
  - done.
  - unfold on_joinRoom. cbn [effects].
    rewrite received_cons_console, received_cons_emit.
    rewrite decide_False; [done | congruence].
  - done.
  - done.
  - unfold on_broadcast_players_updated. case_match; cbn [effects]; [done | by rewrite Hb].
  - unfold on_broadcast_comment_new.
    repeat case_match; cbn [effects]; try done. by rewrite Hb.
  - unfold on_message. cbn [effects]. by rewrite received_cons_console, Hb0.
  - unfold on_privateMessage. cbn [effects]. by rewrite received_cons_console, Hb0.
  - unfold disconnect, on_disconnect. cbn [effects]. by case_match.
  - done.
  - done.
  - unfold post_comment_new, emitToGame.
    repeat case_match; cbn [effects]; try done. by rewrite Hb.
  - unfold post_comment_edit, emitToGame.
    repeat case_match; cbn [effects]; try done. by rewrite Hb.
  - unfold post_comment_delete, emitToGame.
    repeat case_match; cbn [effects]; try done. by rewrite Hb.
  - unfold post_test_send_message. case_match; cbn [effects]; [done | by rewrite Hb0].
Qed.

Lemma live_after_disconnect c socket reason details s :
  live c (next (disconnect socket reason details s)) =
  if decide (socket = c) then false else live c s.
Proof.
  unfold live. simpl. case_decide as Hc.
  - subst. rewrite lookup_delete_eq. apply bool_decide_eq_false. by intros [? ?].
  - by rewrite lookup_delete_ne.
Qed.

Lemma stays_offline c e s :
  connects c e = false → live c s = false → live c (next (handle e s)) = false.
Proof.
  intros Hconn Hoff. destruct e; cbn [handle]; simpl in Hconn.
  - apply bool_decide_eq_false in Hconn.
    unfold live in *. simpl. by rewrite lookup_insert_ne.
  - simpl. by rewrite live_with_client.
  - simpl. by rewrite live_with_client.
  - simpl. by rewrite !live_with_client.
  - by rewrite next_broadcast_players_updated.
  - by rewrite next_broadcast_comment_new.
  - done.
  - done.
  - rewrite live_after_disconnect. by case_decide.
  - done.
  - done.
  - by rewrite next_post_comment_new.
  - by rewrite next_post_comment_edit.
  - by rewrite next_post_comment_delete.
  - by rewrite next_post_test_send_message.
Qed.

Lemma run_stays_offline c tr : ∀ s s',
  Forall (λ e, connects c e = false) tr →
  live c s = false → run tr s = Some s' → live c s' = false.
Proof.
  induction tr as [|e tr IH]; intros s s' Hno Hoff; simpl.
  - by intros [= <-].
  - apply Forall_cons in Hno as [He Hno].
    destruct (enabled e s); [|done].
    apply IH; [done|]. by apply stays_offline.
Qed.

Lemma disconnect_unknown c reason details s :
  wf s → live c s = false → next (disconnect c reason details s) = s.
Proof.
  intros Hwf Hoff. destruct s as [cl rs]. simpl. f_equal.
  - apply delete_id. unfold live in Hoff. simpl in Hoff.
    apply bool_decide_eq_false in Hoff. by apply eq_None_not_Some.
  - apply leaveAll_not_member; [apply Hwf|].
    intros r. by apply (not_member_offline c r _ Hwf).
Qed.

End offline.

(** C7.  When a connection [c] that is a member of channels [r1] and
    [r2] disconnects, it is a member of neither afterwards and its
    record is gone from the registry.  From then on, for as long as the
    id of [c] is not given to a new connection, a broadcast to [r1] or
    [r2] does not reach [c], and neither does anything else the server
    emits.  A disconnect for an id that is not connected changes
    nothing and is not an error. *)
Theorem C7_disconnect_cleans_up :
  (∀ s c r1 r2 reason details,
     Server.reachable s →
     c ∈ Adapter.members r1 (Server.io_rooms s) →
     c ∈ Adapter.members r2 (Server.io_rooms s) →
     let s' := Server.next (Server.disconnect c reason details s) in
     (c ∉ Adapter.members r1 (Server.io_rooms s')) ∧
     (c ∉ Adapter.members r2 (Server.io_rooms s')) ∧
     Server.connectedClients s' !! c = None ∧
     ∀ tr s'', Forall (λ e, connects c e = false) tr →
               Server.run tr s' = Some s'' →
       (∀ ev data,
          received c (to_emit r1 ev data (Server.io_rooms s'')) = [] ∧
          received c (to_emit r2 ev data (Server.io_rooms s'')) = []) ∧
       (∀ e, Server.enabled e s'' = true →
             received c (Server.effects (Server.handle e s'')) = [])) ∧
  (∀ s c reason details,
     Server.reachable s → Server.live c s = false →
     Server.next (Server.disconnect c reason details s) = s ∧
     Server.reply (Server.disconnect c reason details s) = None).
Proof.
  split.
  - intros s c r1 r2 reason details Hreach _ _. cbv zeta.
    apply wf_reachable in Hreach as Hwf.
    pose proof (wf_disconnect c reason details s Hwf) as Hwf'.
    assert (Server.live c (Server.next (Server.disconnect c reason details s)) = false)
      as Hoff by (by rewrite live_after_disconnect, decide_True).
    split; [by apply not_member_offline|].
    split; [by apply not_member_offline|].
    split; [simpl; apply lookup_delete_eq|].
    intros tr s'' Hno Hrun.
    pose proof (wf_run _ _ _ Hwf' Hrun) as Hwf''.
    pose proof (run_stays_offline _ _ _ _ Hno Hoff Hrun) as Hoff''.
    split.
    + intros ev data. rewrite !received_to_emit.
      rewrite !decide_False; [done | by apply not_member_offline..].
    + intros e Hen. by apply offline_receives_nothing.
  - intros s c reason details Hreach Hoff.
    split; [|done]. apply disconnect_unknown; [by apply wf_reachable | done].
Qed.

Lemma C7_disconnect_cleans_up_witness :
  let s := state_after one_in_two_rooms in
  let s' := Server.next (Server.disconnect "a" (Js.Str "transport close") Js.Undefined s) in
  (elements (Adapter.members "game_1" (Server.io_rooms s)) = ["a"; "b"] ∧
   elements (Adapter.members "game_2" (Server.io_rooms s)) = ["a"]) ∧
  (("a" ∉ Adapter.members "game_1" (Server.io_rooms s')) ∧
   ("a" ∉ Adapter.members "game_2" (Server.io_rooms s')) ∧
   Server.connectedClients s' !! "a" = None ∧
   received "a" (Server.effects
                   (Server.handle (Server.Message "b" "game_1" (Js.Str "hi")) s')) = []) ∧
  Server.next (Server.disconnect "zz" (Js.Str "transport close") Js.Undefined s) = s.
Proof.
  split; [split; reflexivity|].
  split.
  - assert ("a" ∈ Adapter.members "game_1"
              (Server.io_rooms (state_after one_in_two_rooms))) as H1
      by (vm_compute; set_solver).
    assert ("a" ∈ Adapter.members "game_2"
              (Server.io_rooms (state_after one_in_two_rooms))) as H2
      by (vm_compute; set_solver).
    pose proof (proj1 C7_disconnect_cleans_up
                  (state_after one_in_two_rooms) "a" "game_1" "game_2"
                  (Js.Str "transport close") Js.Undefined
                  (ex_intro _ one_in_two_rooms eq_refl) H1 H2)
      as (Hr1 & Hr2 & Hrec & Hlater).
    split; [exact Hr1|]. split; [exact Hr2|]. split; [exact Hrec|].
    destruct (Hlater [] _ ltac:(constructor) eq_refl) as [_ Hany].
    apply Hany. reflexivity.
  - apply (proj2 C7_disconnect_cleans_up
             (state_after one_in_two_rooms) "zz" (Js.Str "transport close") Js.Undefined).
    + by exists one_in_two_rooms.
    + reflexivity.
Defined.

(* ===================================================================== *)
(** ** Register *)
(* ===================================================================== *)

Section register.
Import Server.
Implicit Types (s : relay) (c r : string).

(** The user id recorded for a socket, if the socket is connected. *)
Lemma userId_after_register c u s :
  userId <$> connectedClients (next (on_register c u s)) !! c =
  (λ _, Some u) <$> connectedClients s !! c.
Proof.
  simpl. rewrite !lookup_alter_eq.
  by destruct (connectedClients s !! c).
Qed.

Lemma members_after_register c u r s :
  Adapter.members r (io_rooms (next (on_register c u s))) =
  if decide (userRoomName u = r)
  then {[c]} ∪ Adapter.members r (io_rooms s)
  else Adapter.members r (io_rooms s).
Proof. simpl. apply members_join. Qed.

Lemma rooms_of_after_register c c' u s :
  live c s = true →
  rooms_of c' (next (on_register c u s)) =
  if decide (c = c') then {[userRoomName u]} ∪ rooms_of c' s else rooms_of c' s.
Proof.
  intros Hlive. simpl.
  rewrite rooms_of_add by (by rewrite live_with_client).
  by rewrite rooms_of_set_userId.
Qed.

Lemma live_after_register c c' u s : live c' (next (on_register c u s)) = live c' s.
Proof. simpl. by rewrite !live_with_client. Qed.

End register.

(** C8.  For a connected socket [c], [register(userId)] joins [c] to
    [user_<userId>] and records the user id.  A second [register] with
    another id overwrites the recorded id and joins [user_<newId>]; [c]
    stays a member of [user_<oldId>], in the transport's index and in
    its own room set, and no other channel changes. *)
Theorem C8_register_twice s c old new :
  Server.live c s = true →
  let s1 := Server.next (Server.on_register c old s) in
  let s2 := Server.next (Server.on_register c new s1) in
  (c ∈ Adapter.members (Server.userRoomName old) (Server.io_rooms s1) ∧
   Server.userRoomName old ∈ Server.rooms_of c s1 ∧
   Server.userId <$> Server.connectedClients s1 !! c = Some (Some old)) ∧
  (Server.userId <$> Server.connectedClients s2 !! c = Some (Some new) ∧
   c ∈ Adapter.members (Server.userRoomName new) (Server.io_rooms s2) ∧
   Server.userRoomName new ∈ Server.rooms_of c s2) ∧
  (c ∈ Adapter.members (Server.userRoomName old) (Server.io_rooms s2) ∧
   Server.userRoomName old ∈ Server.rooms_of c s2) ∧
  (∀ r, r ≠ Server.userRoomName new →
        Adapter.members r (Server.io_rooms s2) = Adapter.members r (Server.io_rooms s1)).
Proof.
  intros Hlive. cbv zeta.
  assert (Server.live c (Server.next (Server.on_register c old s)) = true) as Hlive1
    by (by rewrite live_after_register).
  apply live_spec in Hlive as Hci. destruct Hci as [ci Hci].
  apply live_spec in Hlive1 as Hci1. destruct Hci1 as [ci1 Hci1].
  assert (∀ r, r ≠ Server.userRoomName new →
               Adapter.members r (Server.io_rooms
                 (Server.next (Server.on_register c new
                    (Server.next (Server.on_register c old s))))) =
               Adapter.members r (Server.io_rooms
                 (Server.next (Server.on_register c old s)))) as Hframe.
  { intros r Hr. rewrite (members_after_register c new). by rewrite decide_False. }
  rewrite !userId_after_register, !members_after_register.
  rewrite !rooms_of_after_register by done.
  rewrite Hci1, Hci. simpl.
  repeat split; first [exact Hframe | repeat case_decide; set_solver].
Qed.

Lemma C8_register_twice_witness :
  let s := state_after two_in_game_123 in
  let s2 := Server.next (Server.on_register "a" (Js.Num 8)
                           (Server.next (Server.on_register "a" (Js.Num 7) s))) in
  Server.live "a" s = true ∧
  Server.userId <$> Server.connectedClients s2 !! "a" = Some (Some (Js.Num 8)) ∧
  "a" ∈ Adapter.members "user_8" (Server.io_rooms s2) ∧
  "a" ∈ Adapter.members "user_7" (Server.io_rooms s2).
Proof.
  split; [reflexivity|].
  pose proof (C8_register_twice (state_after two_in_game_123) "a"
                (Js.Num 7) (Js.Num 8) eq_refl)
    as (_ & (Hid & Hnew & _) & (Hold & _) & _).
  split; [exact Hid|]. split; [exact Hnew | exact Hold].
Defined.

(* ===================================================================== *)
(** ** The message relay *)
(* ===================================================================== *)

(** C9, as stated, fails on the minimal server: what the members of the
    channel receive there is the message itself, not an object with
    [room], [message] and [from]. *)
Lemma C9_minimal_relays_bare_message :
  let rs := Adapter.join "b" "lobby" ∅ in
  let out := snd (Minimal.on_message "a" "lobby" (Js.Str "hello") rs) in
  elements (Adapter.members "lobby" rs) = ["b"] ∧
  received "b" out = [("message", Js.Str "hello")] ∧
  received "b" out ≠
    [("message", Js.Obj [("room", Js.Str "lobby");
                         ("message", Js.Str "hello");
                         ("from", Js.Str "a")])].
Proof.
  split; [reflexivity|]. split; [reflexivity|].
  vm_compute. discriminate.
Qed.

(** C9, amended.  On a [message({room, message})] event from connection
    [c], the full server delivers to every member of [room], once, an
    event tagged [message] with payload [{room, message, from: c}], and
    nothing to anyone else; the minimal server delivers to every member
    of [room], once, an event tagged [message] whose payload is the
    message itself.  Neither changes the membership. *)
Theorem C9_message_relayed c room message :
  (∀ s sid,
     let o := Server.on_message c room message s in
     let payload := Js.Obj [("room", Js.Str room); ("message", message);
                            ("from", Js.Str c)] in
     deliveries (Server.effects o) =
       ((λ m, (m, "message", payload)) <$>
          elements (Adapter.members room (Server.io_rooms s))) ∧
     received sid (Server.effects o) =
       (if decide (sid ∈ Adapter.members room (Server.io_rooms s))
        then [("message", payload)] else []) ∧
     Server.next o = s) ∧
  (∀ rs sid,
     let o := Minimal.on_message c room message rs in
     deliveries (snd o) =
       ((λ m, (m, "message", message)) <$> elements (Adapter.members room rs)) ∧
     received sid (snd o) =
       (if decide (sid ∈ Adapter.members room rs) then [("message", message)] else []) ∧
     fst o = rs).
Proof.
  split.
  - intros s sid. cbv zeta. unfold Server.on_message. cbn [Server.effects Server.next].
    split; [|split; [|done]].
    + change (deliveries (Console ?l ?a :: ?out)) with (deliveries out).
      apply deliveries_to_emit.
    + rewrite received_cons_console. apply received_to_emit.
  - intros rs sid. cbv zeta. unfold Minimal.on_message. cbn [fst snd].
    split; [|split; [|done]].
    + change (deliveries (Console ?l ?a :: ?out)) with (deliveries out).
      apply deliveries_to_emit.
    + rewrite received_cons_console. apply received_to_emit.
Qed.

(* ===================================================================== *)
(** ** Further properties of the socket handlers *)
(* ===================================================================== *)

Lemma size_with_member (c : string) (M : gset string) : (1 ≤ size ({[c]} ∪ M))%nat.
Proof.
  rewrite <- (size_singleton (C := gset string) c).
  apply subseteq_size. set_solver.
Qed.

(** X1. [joinRoom] answers the joining socket, and only it, with one
    [message] event that confirms the subscription; it adds the socket
    to the channel and touches no other channel; from then on the
    channel has at least one client and a broadcast to it reaches the
    socket exactly once. *)
Theorem joinRoom_confirms_and_subscribes c r s :
  let o := Server.on_joinRoom c r s in
  (∀ sid, received sid (Server.effects o) =
          if decide (c = sid)
          then [("message",
                 Js.Obj [("room", Js.Str r);
                         ("message", Js.Obj [("type", Js.Str "subscribed");
                                             ("status", Js.Str "success");
                                             ("room", Js.Str r)])])]
          else []) ∧
  (∀ r', Adapter.members r' (Server.io_rooms (Server.next o)) =
         if decide (r = r')
         then {[c]} ∪ Adapter.members r' (Server.io_rooms s)
         else Adapter.members r' (Server.io_rooms s)) ∧
  (1 ≤ Server.getRoomSize r (Server.next o))%nat ∧
  (∀ ev data,
     received c (to_emit r ev data (Server.io_rooms (Server.next o))) = [(ev, data)]).
Proof.
  cbv zeta. split; [|split; [|split]].
  - intros sid. unfold Server.on_joinRoom. cbn [Server.effects].
    rewrite received_cons_console, received_cons_emit. by case_decide.
  - intros r'. simpl. apply members_join.
  - rewrite getRoomSize_members. simpl.
    rewrite members_join, decide_True by done. apply size_with_member.
  - intros ev data. rewrite received_to_emit. simpl.
    rewrite members_join, (decide_True (P := r = r)) by done.
    rewrite decide_True; [done | set_solver].
Qed.

(** X2. [leaveRoom] tells nobody: it delivers nothing.  It takes the
    socket out of that one channel, in the transport's index and in the
    socket's own room set, and leaves every other channel and every
    other socket's room set as they were. *)
Theorem leaveRoom_silent_and_local c r s :
  let o := Server.on_leaveRoom c r s in
  deliveries (Server.effects o) = [] ∧
  (∀ r', Adapter.members r' (Server.io_rooms (Server.next o)) =
         if decide (r = r')
         then Adapter.members r' (Server.io_rooms s) ∖ {[c]}
         else Adapter.members r' (Server.io_rooms s)) ∧
  (∀ c', Server.rooms_of c' (Server.next o) =
         if decide (c = c')
         then Server.rooms_of c' s ∖ {[r]}
         else Server.rooms_of c' s) ∧
  (∀ ev data,
     received c (to_emit r ev data (Server.io_rooms (Server.next o))) = []).
Proof.
  cbv zeta. split; [done|]. split; [|split].
  - intros r'. simpl. apply members_leave.
  - intros c'. simpl. rewrite rooms_of_delete. done.
  - intros ev data. rewrite received_to_emit. simpl.
    rewrite members_leave, (decide_True (P := r = r)) by done.
    rewrite decide_False; [done | set_solver].
Qed.

(** X3. A disconnect tells nobody and is local to the socket: the
    socket leaves every channel, its record leaves the registry, and
    the memberships and records of all other sockets stay as they
    were. *)
Theorem disconnect_is_local c reason details s :
  let o := Server.disconnect c reason details s in
  deliveries (Server.effects o) = [] ∧
  (∀ r, Adapter.members r (Server.io_rooms (Server.next o)) =
        Adapter.members r (Server.io_rooms s) ∖ {[c]}) ∧
  (∀ c', Server.connectedClients (Server.next o) !! c' =
         if decide (c = c') then None else Server.connectedClients s !! c').
Proof.
  cbv zeta. split; [|split].
  - unfold Server.disconnect, Server.on_disconnect. cbn [Server.effects].
    by destruct (Js.truthy details).
  - intros r. simpl. apply members_leaveAll.
  - intros c'. simpl. case_decide as Hc.
    + subst. apply lookup_delete_eq.
    + by apply lookup_delete_ne.
Qed.

(** X4. [broadcast_players_updated] is not gated: for a truthy
    [gameId] every member of [game_<gameId>] receives
    [game_players_updated] with [{gameId}] exactly once, whether the
    sender is a member or not; for a falsy [gameId] nobody receives
    anything.  The state is not changed. *)
Theorem players_updated_reaches_members sender gameId s sid :
  let o := Server.on_broadcast_players_updated sender gameId s in
  Server.next o = s ∧
  received sid (Server.effects o) =
    if Js.truthy gameId
    then (if decide (sid ∈ Adapter.members (Server.getGameRoomName gameId)
                             (Server.io_rooms s))
          then [("game_players_updated", Js.Obj [("gameId", gameId)])]
          else [])
    else [].
Proof.
  cbv zeta. split; [apply next_broadcast_players_updated|].
  unfold Server.on_broadcast_players_updated.
  destruct (Js.truthy gameId); cbn [negb Server.effects]; [|done].
  rewrite received_app, received_to_emit. by rewrite app_nil_r.
Qed.

(** X5. [broadcast_comment_new] from a subscriber: when the sender's
    own room set ([clientInfo.rooms]) holds [game_<gameId>] and [gameId]
    and [comment] are truthy, every member of the channel receives
    [game_comment_new] with the comment unchanged exactly once, nobody
    else receives anything, and the state is not changed.  The
    comment's [id] and [text] are not checked here. *)
Theorem gated_comment_is_broadcast s sender gameId comment :
  Server.rooms_has sender (Server.getGameRoomName gameId) s = true →
  Js.truthy gameId = true →
  Js.truthy comment = true →
  let o := Server.on_broadcast_comment_new sender gameId comment s in
  (∀ sid, received sid (Server.effects o) =
          if decide (sid ∈ Adapter.members (Server.getGameRoomName gameId)
                            (Server.io_rooms s))
          then [("game_comment_new", comment)] else []) ∧
  Server.next o = s.
Proof.
  intros Hhas Hg Hc. cbv zeta. split; [|apply next_broadcast_comment_new].
  intros sid. unfold Server.on_broadcast_comment_new.
  rewrite Hg, Hc, Hhas. cbn [negb orb Server.effects].
  rewrite received_app, received_to_emit. by rewrite app_nil_r.
Qed.

Lemma gated_comment_is_broadcast_witness :
  let s := state_after two_in_game_123 in
  let o := Server.on_broadcast_comment_new "a" (Js.Num 123)
             (Js.Obj [("text", Js.Str "hi")]) s in
  Server.rooms_has "a" "game_123" s = true ∧
  received "a" (Server.effects o) = [("game_comment_new", Js.Obj [("text", Js.Str "hi")])] ∧
  received "b" (Server.effects o) = [("game_comment_new", Js.Obj [("text", Js.Str "hi")])] ∧
  Server.next o = s.
Proof.
  split; [reflexivity|].
  pose proof (gated_comment_is_broadcast (state_after two_in_game_123) "a"
                (Js.Num 123) (Js.Obj [("text", Js.Str "hi")])
                eq_refl eq_refl eq_refl)
    as (Hall & Hnext).
  split; [|split; [|exact Hnext]]; rewrite Hall; reflexivity.
Defined.

(** X6. Private messages after [register]: once a socket has
    registered a user id, a [privateMessage] that any socket addresses
    to [user_<userId>] reaches it exactly once, tagged [privateMessage],
    with [{message, from: sender's id}]. *)
Theorem privateMessage_reaches_registered s c userId sender message :
  let s1 := Server.next (Server.on_register c userId s) in
  let o := Server.on_privateMessage sender (Server.userRoomName userId) message s1 in
  received c (Server.effects o) =
    [("privateMessage", Js.Obj [("message", message); ("from", Js.Str sender)])] ∧
  Server.next o = s1.
Proof.
  cbv zeta. split; [|done].
  unfold Server.on_privateMessage. cbn [Server.effects].
  rewrite received_cons_console, received_to_emit.
  rewrite members_after_register.
  rewrite (decide_True (P := Server.userRoomName userId = Server.userRoomName userId))
    by done.
  rewrite decide_True; [done | set_solver].
Qed.

(* ===================================================================== *)
(** ** Further properties of the HTTP endpoints *)
(* ===================================================================== *)

Section http_facts.
Import Server.
Implicit Types (s : relay) (body : Js.object) (now : string).

Lemma received_emitToGame sid gameId ev data s :
  received sid (snd (emitToGame gameId ev data s)) =
  if decide (sid ∈ Adapter.members (getGameRoomName gameId) (io_rooms s))
  then [(ev, data)] else [].
Proof.
  unfold emitToGame. cbn [snd].
  rewrite received_app, received_to_emit. by rewrite app_nil_r.
Qed.

Lemma deliveries_emitToGame gameId ev data s :
  deliveries (snd (emitToGame gameId ev data s)) =
  (λ m, (m, ev, data)) <$> elements (Adapter.members (getGameRoomName gameId) (io_rooms s)).
Proof.
  unfold emitToGame. cbn [snd].
  rewrite deliveries_app, deliveries_to_emit. by rewrite app_nil_r.
Qed.

Lemma post_comment_edit_accepts body now s :
  Js.truthy (Js.field "gameId" body) = true →
  Js.truthy (Js.prop "id" (Js.field "comment" body)) = true →
  post_comment_edit body now s =
  Outcome s
    (snd (emitToGame (Js.field "gameId" body) "game_comment_edit" (Js.field "comment" body) s))
    (json (Js.Obj [("success", Js.Bool true);
                   ("gameId", Js.field "gameId" body);
                   ("room", Js.Str (getGameRoomName (Js.field "gameId" body)));
                   ("recipients", num (getRoomSize (getGameRoomName (Js.field "gameId" body)) s));
                   ("event", Js.Str "game_comment_edit");
                   ("timestamp", Js.Str now)])).
Proof.
  intros Hg Hid. unfold post_comment_edit.
  rewrite Hg, (truthy_prop_truthy _ _ Hid), Hid. done.
Qed.

Lemma post_comment_delete_accepts body now s :
  Js.truthy (Js.field "gameId" body) = true →
  Js.truthy (Js.field "commentId" body) = true →
  post_comment_delete body now s =
  Outcome s
    (snd (emitToGame (Js.field "gameId" body) "game_comment_delete"
            (Js.Obj [("id", Js.field "commentId" body);
                     ("gameId", Js.field "gameId" body)]) s))
    (json (Js.Obj [("success", Js.Bool true);
                   ("gameId", Js.field "gameId" body);
                   ("commentId", Js.field "commentId" body);
                   ("room", Js.Str (getGameRoomName (Js.field "gameId" body)));
                   ("recipients", num (getRoomSize (getGameRoomName (Js.field "gameId" body)) s));
                   ("event", Js.Str "game_comment_delete");
                   ("timestamp", Js.Str now)])).
Proof.
  intros Hg Hid. unfold post_comment_delete. rewrite Hg, Hid. done.
Qed.

End http_facts.

(** X7. POST /api/broadcast/game-comment/edit with a truthy [gameId]
    and a comment whose [id] is truthy is answered 200 with event
    [game_comment_edit] and [recipients] the number of members of
    [game_<gameId>]; every member receives [game_comment_edit] with the
    comment unchanged exactly once and nobody else receives anything.
    The comment's [text] plays no part. *)
Theorem post_comment_edit_broadcasts body now s :
  Js.truthy (Js.field "gameId" body) = true →
  Js.truthy (Js.prop "id" (Js.field "comment" body)) = true →
  let gameId := Js.field "gameId" body in
  let comment := Js.field "comment" body in
  let room := Server.getGameRoomName gameId in
  let o := Server.post_comment_edit body now s in
  Server.reply o =
    Some (Response 200
            (Js.Obj [("success", Js.Bool true);
                     ("gameId", gameId);
                     ("room", Js.Str room);
                     ("recipients",
                      Js.Num (Z.of_nat (size (Adapter.members room (Server.io_rooms s)))));
                     ("event", Js.Str "game_comment_edit");
                     ("timestamp", Js.Str now)])) ∧
  (∀ sid, received sid (Server.effects o) =
          if decide (sid ∈ Adapter.members room (Server.io_rooms s))
          then [("game_comment_edit", comment)] else []) ∧
  Server.next o = s.
Proof.
  intros Hg Hid. cbv zeta.
  rewrite post_comment_edit_accepts by done. cbn [Server.reply Server.effects Server.next].
  rewrite getRoomSize_members. split; [done|]. split; [|done].
  intros sid. apply received_emitToGame.
Qed.

Lemma post_comment_edit_broadcasts_witness :
  let o := Server.post_comment_edit
             [("gameId", Js.Num 123); ("comment", Js.Obj [("id", Js.Num 456)])]
             "2024-05-01T10:00:00.000Z" (state_after two_in_game_123) in
  status <$> Server.reply o = Some 200 ∧
  received "b" (Server.effects o) = [("game_comment_edit", Js.Obj [("id", Js.Num 456)])].
Proof.
  pose proof (post_comment_edit_broadcasts
                [("gameId", Js.Num 123); ("comment", Js.Obj [("id", Js.Num 456)])]
                "2024-05-01T10:00:00.000Z" (state_after two_in_game_123)
                eq_refl eq_refl) as (Hreply & Hall & _).
  split; [by rewrite Hreply|]. rewrite Hall. reflexivity.
Defined.

(** X8. POST /api/broadcast/game-comment/delete with truthy [gameId]
    and [commentId] is answered 200 with [commentId], event
    [game_comment_delete] and [recipients] the number of members of
    [game_<gameId>]; every member receives [game_comment_delete] with
    [{id: commentId, gameId}] exactly once and nobody else receives
    anything. *)
Theorem post_comment_delete_broadcasts body now s :
  Js.truthy (Js.field "gameId" body) = true →
  Js.truthy (Js.field "commentId" body) = true →
  let gameId := Js.field "gameId" body in
  let commentId := Js.field "commentId" body in
  let room := Server.getGameRoomName gameId in
  let o := Server.post_comment_delete body now s in
  Server.reply o =
    Some (Response 200
            (Js.Obj [("success", Js.Bool true);
                     ("gameId", gameId);
                     ("commentId", commentId);
                     ("room", Js.Str room);
                     ("recipients",
                      Js.Num (Z.of_nat (size (Adapter.members room (Server.io_rooms s)))));
                     ("event", Js.Str "game_comment_delete");
                     ("timestamp", Js.Str now)])) ∧
  (∀ sid, received sid (Server.effects o) =
          if decide (sid ∈ Adapter.members room (Server.io_rooms s))
          then [("game_comment_delete", Js.Obj [("id", commentId); ("gameId", gameId)])]
          else []) ∧
  Server.next o = s.
Proof.
  intros Hg Hid. cbv zeta.
  rewrite post_comment_delete_accepts by done.
  cbn [Server.reply Server.effects Server.next].
  rewrite getRoomSize_members. split; [done|]. split; [|done].
  intros sid. apply received_emitToGame.
Qed.

Lemma post_comment_delete_broadcasts_witness :
  let o := Server.post_comment_delete
             [("gameId", Js.Num 123); ("commentId", Js.Num 456)]
             "2024-05-01T10:00:00.000Z" (state_after two_in_game_123) in
  status <$> Server.reply o = Some 200 ∧
  received "a" (Server.effects o) =
    [("game_comment_delete", Js.Obj [("id", Js.Num 456); ("gameId", Js.Num 123)])].
Proof.
  pose proof (post_comment_delete_broadcasts
                [("gameId", Js.Num 123); ("commentId", Js.Num 456)]
                "2024-05-01T10:00:00.000Z" (state_after two_in_game_123)
                eq_refl eq_refl) as (Hreply & Hall & _).
  split; [by rewrite Hreply|]. rewrite Hall. reflexivity.
Defined.

(** X9. POST /api/test/send-message never changes the state.  Without a
    truthy [gameId] it is answered 400 with [{error: "gameId is
    required"}] and nothing is emitted.  Otherwise every member of
    [game_<gameId>] receives one [message] event of type [test] whose
    message is the one given, or ["Test message from server"] when the
    given one is missing or falsy, and the answer reports that message
    and the number of members. *)
Theorem test_send_message_behaviour body s :
  let gameId := Js.field "gameId" body in
  let message := Js.field "message" body in
  let room := Server.getGameRoomName gameId in
  let sent := if Js.truthy message then message else Js.Str "Test message from server" in
  let o := Server.post_test_send_message body s in
  Server.next o = s ∧
  (Js.truthy gameId = false →
   Server.reply o = Some (Response 400 (Js.Obj [("error", Js.Str "gameId is required")])) ∧
   Server.effects o = []) ∧
  (Js.truthy gameId = true →
   Server.reply o =
     Some (Response 200
             (Js.Obj [("success", Js.Bool true);
                      ("room", Js.Str room);
                      ("recipients",
                       Js.Num (Z.of_nat (size (Adapter.members room (Server.io_rooms s)))));
                      ("message", sent)])) ∧
   ∀ sid, received sid (Server.effects o) =
          if decide (sid ∈ Adapter.members room (Server.io_rooms s))
          then [("message",
                 Js.Obj [("room", Js.Str room); ("message", sent); ("type", Js.Str "test")])]
          else []).
Proof.
  cbv zeta. split; [apply next_post_test_send_message|].
  unfold Server.post_test_send_message. split; intros ->; cbn [negb].
  - done.
  - cbn [Server.reply Server.effects]. rewrite getRoomSize_members.
    split; [done|]. intros sid. apply received_to_emit.
Qed.

Lemma test_send_message_behaviour_witness :
  let s := state_after two_in_game_123 in
  (Server.reply (Server.post_test_send_message [("message", Js.Str "x")] s) =
     Some (Response 400 (Js.Obj [("error", Js.Str "gameId is required")]))) ∧
  received "a" (Server.effects (Server.post_test_send_message [("gameId", Js.Num 123)] s)) =
    [("message", Js.Obj [("room", Js.Str "game_123");
                         ("message", Js.Str "Test message from server");
                         ("type", Js.Str "test")])].
Proof.
  split.
  - pose proof (test_send_message_behaviour [("message", Js.Str "x")]
                  (state_after two_in_game_123)) as (_ & Hbad & _).
    exact (proj1 (Hbad eq_refl)).
  - pose proof (test_send_message_behaviour [("gameId", Js.Num 123)]
                  (state_after two_in_game_123)) as (_ & _ & Hok).
    rewrite (proj2 (Hok eq_refl)). reflexivity.
Defined.

(** X10. GET /api/room/:roomName reports the number of members of the
    channel and [exists: true] exactly when the channel has a member;
    it emits nothing and changes nothing. *)
Theorem get_room_reports_members roomName s :
  let o := Server.get_room roomName s in
  let M := Adapter.members roomName (Server.io_rooms s) in
  Server.reply o =
    Some (Response 200
            (Js.Obj [("room", Js.Str roomName);
                     ("clients", Js.Num (Z.of_nat (size M)));
                     ("exists", Js.Bool (bool_decide (M ≠ ∅)))])) ∧
  Server.effects o = [] ∧
  Server.next o = s.
Proof.
  cbv zeta. unfold Server.get_room. cbn [Server.reply Server.effects Server.next].
  rewrite getRoomSize_members. split; [|done].
  unfold Server.json, Server.num. repeat f_equal.
  apply bool_decide_ext.
  pose proof (size_non_empty_iff (Adapter.members roomName (Server.io_rooms s))) as Hne.
  rewrite leibniz_equiv_iff in Hne. rewrite <- Hne. lia.
Qed.

(** X11. [emitToGame] returns exactly the number of deliveries it
    makes: one to each member of [game_<gameId>], none to anyone else. *)
Theorem emitToGame_count_is_deliveries gameId eventName data s :
  let r := Server.emitToGame gameId eventName data s in
  fst r = length (deliveries (snd r)) ∧
  fst r = size (Adapter.members (Server.getGameRoomName gameId) (Server.io_rooms s)) ∧
  ∀ sid, received sid (snd r) =
         if decide (sid ∈ Adapter.members (Server.getGameRoomName gameId) (Server.io_rooms s))
         then [(eventName, data)] else [].
Proof.
  cbv zeta. split; [|split].
  - rewrite deliveries_emitToGame, length_fmap. simpl. apply getRoomSize_members.
  - simpl. apply getRoomSize_members.
  - intros sid. apply received_emitToGame.
Qed.

(** X12. Only a connect, a [joinRoom], a [leaveRoom], a [register] and
    a disconnect write to the state: every broadcast, message, private
    message, error event and HTTP request leaves the registry and the
    memberships exactly as they were. *)
Theorem only_membership_events_mutate e s :
  mutates e = false → Server.next (Server.handle e s) = s.
Proof.
  intros Hm. destruct e; try discriminate Hm; cbn [Server.handle].
  - apply next_broadcast_players_updated.
  - apply next_broadcast_comment_new.
  - done.
  - done.
  - done.
  - done.
  - apply next_post_comment_new.
  - apply next_post_comment_edit.
  - apply next_post_comment_delete.
  - apply next_post_test_send_message.
Qed.

Lemma only_membership_events_mutate_witness :
  Server.next (Server.handle (Server.Message "a" "game_123" (Js.Str "hi"))
                 (state_after two_in_game_123)) = state_after two_in_game_123.
Proof.
  apply (only_membership_events_mutate (Server.Message "a" "game_123" (Js.Str "hi"))).
  reflexivity.
Defined.

(* ===================================================================== *)
(** ** Invariants of the reachable states *)
(* ===================================================================== *)

Section reachable_facts.
Import Server.
Implicit Types (s : relay) (c r : string).

Lemma ids_agree_with_client socket (f : clientInfo → clientInfo) s :
  (∀ ci, id (f ci) = id ci) → ids_agree s → ids_agree (with_client socket f s).
Proof.
  intros Hf Hids c ci. unfold with_client. cbn [connectedClients].
  destruct (decide (socket = c)) as [->|Hc].
  - rewrite lookup_alter_eq.
    destruct (connectedClients s !! c) as [ci0|] eqn:E; [|done].
    intros [= <-]. rewrite Hf. by apply Hids.
  - rewrite lookup_alter_ne by done. apply Hids.
Qed.

Lemma ids_agree_handle e s : ids_agree s → ids_agree (next (handle e s)).
Proof.
  intros Hids. destruct e; cbn [handle].
  - intros c ci. simpl. destruct (decide (socket = c)) as [->|Hc].
    + rewrite lookup_insert_eq. by intros [= <-].
    + rewrite lookup_insert_ne by done. apply Hids.
  - by apply ids_agree_with_client.
  - by apply ids_agree_with_client.
  - simpl. by apply ids_agree_with_client, ids_agree_with_client.
  - by rewrite next_broadcast_players_updated.
  - by rewrite next_broadcast_comment_new.
  - done.
  - done.
  - intros c ci. simpl. destruct (decide (socket = c)) as [->|Hc].
    + by rewrite lookup_delete_eq.
    + rewrite lookup_delete_ne by done. apply Hids.
  - done.
  - done.
  - by rewrite next_post_comment_new.
  - by rewrite next_post_comment_edit.
  - by rewrite next_post_comment_delete.
  - by rewrite next_post_test_send_message.
Qed.

Lemma ids_agree_run tr : ∀ s s', ids_agree s → run tr s = Some s' → ids_agree s'.
Proof.
  induction tr as [|e tr IH]; intros s s' Hids; simpl.
  - by intros [= <-].
  - destruct (enabled e s); [|done]. apply IH. by apply ids_agree_handle.
Qed.

Lemma room_of_members r c s :
  Adapter.members r (io_rooms s) = {[c]} → io_rooms s !! r = Some {[c]}.
Proof.
  unfold Adapter.members. destruct (io_rooms s !! r) as [ms|]; simpl.
  - by intros ->.
  - intros Hempty. exfalso. assert (c ∈ (∅ : gset string)) by (rewrite Hempty; set_solver).
    set_solver.
Qed.

Lemma without_last c : Adapter.without c {[c]} = None.
Proof. unfold Adapter.without. rewrite decide_True; [done | set_solver]. Qed.

End reachable_facts.

(** X13. In every reachable state the room set of a client never runs
    ahead of the index: every channel in a connected socket's own room
    set ([clientInfo.rooms]) has the socket among its members, so a
    [broadcast_comment_new] that passes the gate comes from a member.
    Every record of the registry is stored under its own id. *)
Theorem room_set_within_index s :
  Server.reachable s →
  (∀ c r, r ∈ Server.rooms_of c s → c ∈ Adapter.members r (Server.io_rooms s)) ∧
  (∀ sender gameId,
     Server.rooms_has sender (Server.getGameRoomName gameId) s = true →
     sender ∈ Adapter.members (Server.getGameRoomName gameId) (Server.io_rooms s)) ∧
  (∀ c ci, Server.connectedClients s !! c = Some ci → Server.id ci = c).
Proof.
  intros Hreach. pose proof (wf_reachable s Hreach) as [_ Hag].
  split; [|split].
  - intros c r Hr. by apply Hag.
  - intros sender gameId Hhas. apply Hag.
    unfold Server.rooms_has in Hhas. by apply bool_decide_eq_true in Hhas.
  - destruct Hreach as [tr Htr].
    apply (ids_agree_run tr Server.initial s); [|exact Htr].
    intros c ci. simpl. by rewrite lookup_empty.
Qed.

Lemma room_set_within_index_witness :
  let s := state_after one_in_two_rooms in
  ("game_2" ∈ Server.rooms_of "a" s) ∧
  "a" ∈ Adapter.members "game_2" (Server.io_rooms s).
Proof.
  assert ("game_2" ∈ Server.rooms_of "a" (state_after one_in_two_rooms)) as Hin
    by (vm_compute; set_solver).
  split; [exact Hin|].
  pose proof (room_set_within_index (state_after one_in_two_rooms)
                (ex_intro _ one_in_two_rooms eq_refl)) as (Hsub & _).
  by apply Hsub.
Defined.

(** X14. A channel ends with its last member: when a socket is the only
    member of a channel, its [leaveRoom], and likewise its disconnect,
    removes the channel from the index, and the room size reads 0. *)
Theorem last_member_closes_channel c r reason details s :
  Adapter.members r (Server.io_rooms s) = {[c]} →
  let s1 := Server.next (Server.on_leaveRoom c r s) in
  let s2 := Server.next (Server.disconnect c reason details s) in
  (Server.io_rooms s1 !! r = None ∧ Server.getRoomSize r s1 = 0) ∧
  (Server.io_rooms s2 !! r = None ∧ Server.getRoomSize r s2 = 0).
Proof.
  intros Hone. apply room_of_members in Hone. cbv zeta.
  unfold Server.getRoomSize. simpl. unfold Adapter.leave, Adapter.leaveAll.
  rewrite lookup_partial_alter_eq, lookup_omap, Hone. simpl.
  by rewrite without_last.
Qed.

Lemma last_member_closes_channel_witness :
  let s := state_after alone_in_game_5 in
  elements (Adapter.members "game_5" (Server.io_rooms s)) = ["a"] ∧
  Server.io_rooms (Server.next (Server.on_leaveRoom "a" "game_5" s)) !! "game_5" = None ∧
  Server.io_rooms (Server.next (Server.disconnect "a" (Js.Str "ping timeout")
                                  Js.Undefined s)) !! "game_5" = None.
Proof.
  split; [reflexivity|].
  assert (Adapter.members "game_5" (Server.io_rooms (state_after alone_in_game_5))
          = {["a"]}) as Hone by (by vm_compute).
  pose proof (last_member_closes_channel "a" "game_5" (Js.Str "ping timeout")
                Js.Undefined (state_after alone_in_game_5) Hone) as [[H1 _] [H2 _]].
  split; [exact H1 | exact H2].
Defined.

(** X15. Channel names: two game ids that are safe integers name the
    same channel only when they are equal, and so for user ids; a safe
    integer and its decimal string name the same channel; a game
    channel is never a user channel. *)
Theorem room_names_do_not_collide :
  (∀ a b : Z, safe_integer a → safe_integer b →
     (Server.getGameRoomName (Js.Num a) = Server.getGameRoomName (Js.Num b) ↔ a = b)) ∧
  (∀ a b : Z, safe_integer a → safe_integer b →
     (Server.userRoomName (Js.Num a) = Server.userRoomName (Js.Num b) ↔ a = b)) ∧
  (∀ n : Z, safe_integer n →
     Server.getGameRoomName (Js.Str (pretty n)) = Server.getGameRoomName (Js.Num n)) ∧
  (∀ g u, Server.getGameRoomName g ≠ Server.userRoomName u).
Proof.
  split; [|split; [|split]].
  - intros a b _ _. split; [|by intros ->].
    unfold Server.getGameRoomName. simpl. intros [= Heq]. by apply (inj pretty).
  - intros a b _ _. split; [|by intros ->].
    unfold Server.userRoomName. simpl. intros [= Heq]. by apply (inj pretty).
  - done.
  - intros g u. unfold Server.getGameRoomName, Server.userRoomName. simpl. discriminate.
Qed.

Lemma room_names_do_not_collide_witness :
  (safe_integer 123 ∧ safe_integer 124) ∧
  Server.getGameRoomName (Js.Num 123) ≠ Server.getGameRoomName (Js.Num 124) ∧
  Server.getGameRoomName (Js.Str "123") = Server.getGameRoomName (Js.Num 123).
Proof.
  assert (safe_integer 123) as H123 by (unfold safe_integer; lia).
  assert (safe_integer 124) as H124 by (unfold safe_integer; lia).
  destruct room_names_do_not_collide as (Hgame & _ & Hstr & _).
  split; [by split|]. split.
  - intros Heq. apply (Hgame 123%Z 124%Z H123 H124) in Heq. discriminate Heq.
  - exact (Hstr 123%Z H123).
Defined.


(* ===================================================================== *)
(** ** The socket emitter helper *)
(* ===================================================================== *)

Section emitter_facts.
Implicit Types (rs : gmap string (gset string)) (gameId userId data : Js.value).

Lemma emitter_getRoomSize_members rs room :
  Emitter.getRoomSize Emitter.Instance rs room = size (Adapter.members room rs).
Proof. unfold Emitter.getRoomSize, Adapter.members. by destruct (rs !! room). Qed.

Lemma received_emitter_emitToGame sid rs gameId ev data :
  received sid (snd (Emitter.emitToGame Emitter.Instance rs gameId ev data)) =
  if decide (sid ∈ Adapter.members (Emitter.getGameRoomName gameId) rs)
  then [(ev, data)] else [].
Proof.
  unfold Emitter.emitToGame. cbn [snd].
  rewrite received_app, received_to_emit. by rewrite app_nil_r.
Qed.

Lemma deliveries_emitter_emitToGame rs gameId ev data :
  deliveries (snd (Emitter.emitToGame Emitter.Instance rs gameId ev data)) =
  (λ m, (m, ev, data)) <$> elements (Adapter.members (Emitter.getGameRoomName gameId) rs).
Proof.
  unfold Emitter.emitToGame. cbn [snd].
  rewrite deliveries_app, deliveries_to_emit. by rewrite app_nil_r.
Qed.

Lemma emitters_as_emitToGame io rs gameId comment commentId :
  Emitter.emitNewComment io rs gameId comment =
    Emitter.emitToGame io rs gameId "game_comment_new" comment ∧
  Emitter.emitEditComment io rs gameId comment =
    Emitter.emitToGame io rs gameId "game_comment_edit" comment ∧
  Emitter.emitDeleteComment io rs gameId commentId =
    Emitter.emitToGame io rs gameId "game_comment_delete"
      (Js.Obj [("id", commentId); ("gameId", gameId)]).
Proof. destruct io; repeat split. Qed.

End emitter_facts.

(** X17. Before [init] the emitter drops everything: each of
    [emitNewComment], [emitEditComment], [emitDeleteComment],
    [emitToGame] and [emitToUser] returns 0, writes the one warning and
    delivers nothing, whoever is in the channel; [getRoomSize] reads
    0. *)
Theorem emitter_before_init rs gameId userId eventName data room :
  Emitter.isInitialized Emitter.Null = false ∧
  Emitter.getRoomSize Emitter.Null rs room = 0 ∧
  Emitter.emitNewComment Emitter.Null rs gameId data = (0, Emitter.not_initialized) ∧
  Emitter.emitEditComment Emitter.Null rs gameId data = (0, Emitter.not_initialized) ∧
  Emitter.emitDeleteComment Emitter.Null rs gameId data = (0, Emitter.not_initialized) ∧
  Emitter.emitToGame Emitter.Null rs gameId eventName data = (0, Emitter.not_initialized) ∧
  Emitter.emitToUser Emitter.Null rs userId eventName data = (0, Emitter.not_initialized) ∧
  deliveries Emitter.not_initialized = [].
Proof. repeat split. Qed.

(** X18. The three comment emitters are [emitToGame] at a fixed event
    name: same return value, same deliveries, same console line,
    initialized or not.  [emitDeleteComment] sends [{id: commentId,
    gameId}]. *)
Theorem comment_emitters_are_emitToGame io rs gameId comment commentId :
  Emitter.emitNewComment io rs gameId comment =
    Emitter.emitToGame io rs gameId "game_comment_new" comment ∧
  Emitter.emitEditComment io rs gameId comment =
    Emitter.emitToGame io rs gameId "game_comment_edit" comment ∧
  Emitter.emitDeleteComment io rs gameId commentId =
    Emitter.emitToGame io rs gameId "game_comment_delete"
      (Js.Obj [("id", commentId); ("gameId", gameId)]).
Proof. apply emitters_as_emitToGame. Qed.

(** X19. Once initialized, [emitToGame] of the emitter returns the
    number of members of [game_<gameId>], which is the number of
    deliveries it makes: each member receives the event once and nobody
    else does.  No [gameId] is turned down.  Count and deliveries are
    those of the server's own [emitToGame]. *)
Theorem emitter_emitToGame_delivers gameId eventName data s :
  let r := Emitter.emitToGame Emitter.Instance (Server.io_rooms s) gameId eventName data in
  fst r = size (Adapter.members (Server.getGameRoomName gameId) (Server.io_rooms s)) ∧
  fst r = length (deliveries (snd r)) ∧
  (∀ sid, received sid (snd r) =
          if decide (sid ∈ Adapter.members (Server.getGameRoomName gameId)
                            (Server.io_rooms s))
          then [(eventName, data)] else []) ∧
  fst r = fst (Server.emitToGame gameId eventName data s) ∧
  deliveries (snd r) = deliveries (snd (Server.emitToGame gameId eventName data s)).
Proof.
  cbv zeta.
  assert (fst (Emitter.emitToGame Emitter.Instance (Server.io_rooms s) gameId
                 eventName data) =
          size (Adapter.members (Server.getGameRoomName gameId) (Server.io_rooms s)))
    as Hcount by apply emitter_getRoomSize_members.
  split; [exact Hcount|]. split; [|split; [|split]].
  - rewrite Hcount, deliveries_emitter_emitToGame, length_fmap. done.
  - intros sid. apply received_emitter_emitToGame.
  - rewrite Hcount. symmetry. apply getRoomSize_members.
  - by rewrite deliveries_emitter_emitToGame, deliveries_emitToGame.
Qed.

(** X20. [emitToUser] addresses [user_<userId>], the channel that
    [register] joins: after a socket has registered [userId], the event
    reaches it exactly once and the count is at least 1; after two
    different sockets have registered the same [userId] the count is at
    least 2. *)
Theorem emitToUser_reaches_registered s c1 c2 userId eventName data :
  c1 ≠ c2 →
  let s1 := Server.next (Server.on_register c1 userId s) in
  let s2 := Server.next (Server.on_register c2 userId s1) in
  let r1 := Emitter.emitToUser Emitter.Instance (Server.io_rooms s1) userId eventName data in
  let r2 := Emitter.emitToUser Emitter.Instance (Server.io_rooms s2) userId eventName data in
  (received c1 (snd r1) = [(eventName, data)] ∧ (1 ≤ fst r1)%nat) ∧
  (received c1 (snd r2) = [(eventName, data)] ∧
   received c2 (snd r2) = [(eventName, data)] ∧ (2 ≤ fst r2)%nat).
Proof.
  intros Hne. cbv zeta. unfold Emitter.emitToUser. cbn [fst snd].
  rewrite !emitter_getRoomSize_members, !received_app, !received_to_emit.
  change ("user_" ++ Js.to_string userId) with (Server.userRoomName userId).
  rewrite !members_after_register.
  rewrite !(decide_True (P := Server.userRoomName userId = Server.userRoomName userId))
    by done.
  set (M := Adapter.members (Server.userRoomName userId) (Server.io_rooms s)).
  rewrite !decide_True by set_solver.
  split; [split; [done | apply size_with_member]|].
  split; [done|]. split; [done|].
  assert (({[c2]} ∪ {[c1]} : gset string) ⊆ {[c2]} ∪ ({[c1]} ∪ M)) as Hsub by set_solver.
  apply subseteq_size in Hsub.
  rewrite size_union in Hsub by set_solver. rewrite !size_singleton in Hsub. exact Hsub.
Qed.

Lemma emitToUser_reaches_registered_witness :
  let s := state_after two_devices_one_user in
  let r := Emitter.emitToUser Emitter.Instance (Server.io_rooms s) (Js.Num 7)
             "notify" (Js.Str "x") in
  fst r = 2 ∧
  received "a" (snd r) = [("notify", Js.Str "x")] ∧
  received "b" (snd r) = [("notify", Js.Str "x")].
Proof.
  assert ("a" ≠ "b") as Hne by discriminate.
  pose proof (emitToUser_reaches_registered
                (state_after [Server.Connection "a" "10.0.0.1" 0;
                              Server.Connection "b" "10.0.0.2" 1])
                "a" "b" (Js.Num 7) "notify" (Js.Str "x") Hne)
    as (_ & Ha & Hb & _).
  split; [reflexivity|]. split; [exact Ha | exact Hb].
Defined.

(** X21. The two ways of publishing agree: a request that the HTTP
    endpoint accepts makes the same deliveries as the matching emitter
    call on the same [gameId] and payload, for new, edit and delete. *)
Theorem endpoints_agree_with_emitter body now s :
  let gameId := Js.field "gameId" body in
  let comment := Js.field "comment" body in
  let commentId := Js.field "commentId" body in
  (Js.truthy gameId = true →
   Js.truthy (Js.prop "id" comment) = true →
   Js.truthy (Js.prop "text" comment) = true →
   deliveries (Server.effects (Server.post_comment_new body now s)) =
   deliveries (snd (Emitter.emitNewComment Emitter.Instance (Server.io_rooms s)
                      gameId comment))) ∧
  (Js.truthy gameId = true →
   Js.truthy (Js.prop "id" comment) = true →
   deliveries (Server.effects (Server.post_comment_edit body now s)) =
   deliveries (snd (Emitter.emitEditComment Emitter.Instance (Server.io_rooms s)
                      gameId comment))) ∧
  (Js.truthy gameId = true →
   Js.truthy commentId = true →
   deliveries (Server.effects (Server.post_comment_delete body now s)) =
   deliveries (snd (Emitter.emitDeleteComment Emitter.Instance (Server.io_rooms s)
                      gameId commentId))).
Proof.
  cbv zeta.
  pose proof (emitters_as_emitToGame Emitter.Instance (Server.io_rooms s)
                (Js.field "gameId" body) (Js.field "comment" body)
                (Js.field "commentId" body)) as (Hnew & Hedit & Hdel).
  rewrite Hnew, Hedit, Hdel, !deliveries_emitter_emitToGame.
  split; [|split].
  - intros Hg Hid Htext. rewrite post_comment_new_accepts by done.
    cbn [Server.effects]. apply deliveries_emitToGame.
  - intros Hg Hid. rewrite post_comment_edit_accepts by done.
    cbn [Server.effects]. apply deliveries_emitToGame.
  - intros Hg Hid. rewrite post_comment_delete_accepts by done.
    cbn [Server.effects]. apply deliveries_emitToGame.
Qed.

Lemma endpoints_agree_with_emitter_witness :
  let s := state_after two_in_game_123 in
  let c := Js.Obj [("id", Js.Num 456); ("text", Js.Str "hi")] in
  deliveries (Server.effects
                (Server.post_comment_new [("gameId", Js.Num 123); ("comment", c)]
                   "2024-05-01T10:00:00.000Z" s)) =
  deliveries (snd (Emitter.emitNewComment Emitter.Instance (Server.io_rooms s)
                     (Js.Num 123) c)).
Proof.
  apply (proj1 (endpoints_agree_with_emitter
                  [("gameId", Js.Num 123);
                   ("comment", Js.Obj [("id", Js.Num 456); ("text", Js.Str "hi")])]
                  "2024-05-01T10:00:00.000Z" (state_after two_in_game_123)));
    reflexivity.
Defined.

(* ===================================================================== *)
(** ** The broadcasting [res.json] of the integration examples *)
(* ===================================================================== *)

Lemma truthy_has_prop_str k v t : Js.prop k v = Js.Str t → Js.truthy v = true.
Proof. destruct v; simpl; try discriminate. done. Qed.

(** X22. The [res.json] installed by [socketBroadcastMiddleware] always
    hands the data to the original [json] unchanged.  It broadcasts
    only when [res.locals.socketBroadcast] is set and its [eventType]
    is ["new"], ["edit"] or ["delete"]; any other setting delivers
    nothing.  For ["delete"] the [data] is taken as the comment id. *)
Theorem middleware_json_broadcasts io rs socketBroadcast data :
  let r := Integration.json io rs socketBroadcast data in
  let eventType := Js.prop "eventType" socketBroadcast in
  let gameId := Js.prop "gameId" socketBroadcast in
  let broadcastData := Js.prop "data" socketBroadcast in
  fst r = data ∧
  (Js.truthy socketBroadcast = false → snd r = []) ∧
  (eventType ≠ Js.Str "new" → eventType ≠ Js.Str "edit" → eventType ≠ Js.Str "delete" →
   snd r = []) ∧
  (eventType = Js.Str "new" →
   snd r = snd (Emitter.emitNewComment io rs gameId broadcastData)) ∧
  (eventType = Js.Str "edit" →
   snd r = snd (Emitter.emitEditComment io rs gameId broadcastData)) ∧
  (eventType = Js.Str "delete" →
   snd r = snd (Emitter.emitDeleteComment io rs gameId broadcastData)).
Proof.
  cbv zeta. unfold Integration.json. cbn [fst snd].
  split; [done|]. split; [by intros ->|].
  split; [|split; [|split]].
  - intros Hnew Hedit Hdel. destruct (Js.truthy socketBroadcast); [|done].
    destruct (Js.prop "eventType" socketBroadcast) as [| | | |t| |]; try done.
    destruct (String.eqb_spec t "new") as [->|_]; [done|].
    destruct (String.eqb_spec t "edit") as [->|_]; [done|].
    destruct (String.eqb_spec t "delete") as [->|_]; done.
  - intros Het. apply truthy_has_prop_str in Het as Htr. by rewrite Htr, Het.
  - intros Het. apply truthy_has_prop_str in Het as Htr. by rewrite Htr, Het.
  - intros Het. apply truthy_has_prop_str in Het as Htr. by rewrite Htr, Het.
Qed.

Lemma middleware_json_broadcasts_witness :
  let rs := Server.io_rooms (state_after two_in_game_123) in
  let c := Js.Obj [("id", Js.Num 456); ("text", Js.Str "hi")] in
  snd (Integration.json Emitter.Instance rs
         (Js.Obj [("eventType", Js.Str "new"); ("gameId", Js.Num 123); ("data", c)]) c) =
    snd (Emitter.emitNewComment Emitter.Instance rs (Js.Num 123) c) ∧
  snd (Integration.json Emitter.Instance rs
         (Js.Obj [("eventType", Js.Str "ping"); ("gameId", Js.Num 123); ("data", c)]) c) = [] ∧
  snd (Integration.json Emitter.Instance rs Js.Undefined c) = [].
Proof.
  split; [|split].
  - pose proof (middleware_json_broadcasts Emitter.Instance
                  (Server.io_rooms (state_after two_in_game_123))
                  (Js.Obj [("eventType", Js.Str "new"); ("gameId", Js.Num 123);
                           ("data", Js.Obj [("id", Js.Num 456); ("text", Js.Str "hi")])])
                  (Js.Obj [("id", Js.Num 456); ("text", Js.Str "hi")]))
      as (_ & _ & _ & Hnew & _).
    exact (Hnew eq_refl).
  - pose proof (middleware_json_broadcasts Emitter.Instance
                  (Server.io_rooms (state_after two_in_game_123))
                  (Js.Obj [("eventType", Js.Str "ping"); ("gameId", Js.Num 123);
                           ("data", Js.Obj [("id", Js.Num 456); ("text", Js.Str "hi")])])
                  (Js.Obj [("id", Js.Num 456); ("text", Js.Str "hi")]))
      as (_ & _ & Hother & _).
    apply Hother; discriminate.
  - pose proof (middleware_json_broadcasts Emitter.Instance
                  (Server.io_rooms (state_after two_in_game_123)) Js.Undefined
                  (Js.Obj [("id", Js.Num 456); ("text", Js.Str "hi")]))
      as (_ & Hunset & _).
    exact (Hunset eq_refl).
Defined.

(* ===================================================================== *)
(** ** Further properties of the minimal server *)
(* ===================================================================== *)

